(** * Gmail spam handler: the triage loop of [gmail_spam_checker.py] and the
    classifier wrapper of [spam_classifier.py]

    The two Python modules are embedded as functions in a small monad that
    threads the provider's state and a script of injected faults, and that
    returns the externally visible events (API requests, model runs, log
    lines, sleeps) of a run.  A Python exception is a [Raise] result that
    keeps the state reached so far. *)

From Stdlib Require Import String Ascii List ZArith Floats Lia Bool.
From stdpp Require Import base option list strings pretty gmap.
Import ListNotations.

Set Warnings "-inexact-float".
Local Open Scope string_scope.
Local Open Scope list_scope.

(** ** Exceptions

    Control flow only depends on where an exception sits in Python's class
    hierarchy: [HttpError] (googleapiclient), any other subclass of
    [Exception] (KeyError, IndexError, TimeoutError, ...), or a
    [BaseException] outside [Exception] (KeyboardInterrupt, SystemExit). *)
Inductive exn : Type :=
| HttpError
| OtherException
| NonException.

Definition is_HttpError (e : exn) : bool :=
  match e with HttpError => true | _ => false end.

(** [except Exception] catches everything below [Exception]. *)
Definition is_Exception (e : exn) : bool :=
  match e with NonException => false | _ => true end.

Inductive result (A : Type) : Type :=
| Ok (a : A)
| Raise (e : exn).
Arguments Ok {A} a.
Arguments Raise {A} e.

(** ** Provider data, as the Gmail API returns it *)

Record Label : Type := mkLabel {
  label_id : string;
  label_name : string;
  labelListVisibility : string;
  messageListVisibility : string
}.

(** A message resource in [format='metadata']: [id], [payload.headers],
    [snippet], and the label ids the provider holds for it. A resource that
    lacks one of the keys the code reads (a KeyError right after the fetch)
    is a fetch that raises [OtherException]. *)
Record Email : Type := mkEmail {
  email_id : string;
  email_headers : list (string * string);
  email_snippet : string;
  email_labelIds : list string
}.

Record Gmail : Type := mkGmail {
  gm_labels : list Label;
  gm_messages : list Email
}.

(** The world a run acts on: the provider's state and, for each request
    still to come, whether its [execute()] raises. An exhausted script
    means the remaining requests succeed. *)
Record World : Type := mkWorld {
  gmail : Gmail;
  script : list (option exn)
}.

(** ** Events *)

Inductive level : Type := INFO | WARNING | ERROR.

Inductive logmsg : Type :=
| FoundExistingLabel (name : string)
| CreatingLabel (name : string)
| FailedToEnsureLabel (e : exn)
| FailedToModifyLabels (msg_id : string) (e : exn)
| NoCredentials
| NoProcessingLabel
| NoNewMessages
| FoundMessages (n : nat)
| TRUSTED (subject sender : string)
| SPAM (p : float) (subject : string)
| NOT_SPAM (p : float) (subject : string)
| ApiError (e : exn)
| UnexpectedError (e : exn)
| BatchClassificationError (e : exn).

Inductive event : Type :=
| LabelsList
| LabelsCreate (name llv mlv : string)
| MessagesList (q : string)
| MessagesGet (id : string)
| MessagesModify (id : string) (addLabelIds removeLabelIds : list string)
| ModelRun (texts : list string)
| Log (lvl : level) (m : logmsg)
| Sleep (seconds : Z).

(** ** The monad *)

Record Out (A : Type) : Type := mkOut {
  out_res : result A;
  out_world : World;
  out_events : list event
}.
Arguments mkOut {A} _ _ _.
Arguments out_res {A} _.
Arguments out_world {A} _.
Arguments out_events {A} _.

Definition M (A : Type) : Type := World -> Out A.

#[global] Instance M_ret : MRet M := fun A a w => mkOut (Ok a) w [].

#[global] Instance M_bind : MBind M := fun A B f m w =>
  let o := m w in
  match out_res o with
  | Ok a =>
      let o' := f a (out_world o) in
      mkOut (out_res o') (out_world o') (out_events o ++ out_events o')
  | Raise e => mkOut (Raise e) (out_world o) (out_events o)
  end.

Definition raise {A : Type} (e : exn) : M A := fun w => mkOut (Raise e) w [].

Definition emit (ev : event) : M unit := fun w => mkOut (Ok tt) w [ev].

Definition logging (lvl : level) (m : logmsg) : M unit := emit (Log lvl m).

(** [try: body except <classes>: handler]. An exception outside the
    caught classes goes on to the caller. *)
Definition try_except {A : Type} (body : M A) (caught : exn -> bool)
    (handler : exn -> M A) : M A := fun w =>
  let o := body w in
  match out_res o with
  | Ok a => o
  | Raise e =>
      if caught e then
        let o' := handler e (out_world o) in
        mkOut (out_res o') (out_world o') (out_events o ++ out_events o')
      else o
  end.

(** [for x in xs: body x]; an exception leaves the loop. *)
Fixpoint for_each {A : Type} (xs : list A) (body : A -> M unit) : M unit :=
  match xs with
  | [] => mret tt
  | x :: rest => body x ;; for_each rest body
  end.

(** ** Python strings and dicts *)

(** [sub in s]. *)
Fixpoint str_in (sub s : string) : bool :=
  String.prefix sub s ||
  match s with
  | EmptyString => false
  | String _ s' => str_in sub s'
  end.

(** [{h['name']: h['value'] for h in hs}]: a later header of the same name
    overwrites an earlier one. *)
Definition headers_dict (hs : list (string * string)) : gmap string string :=
  foldl (fun d h => <[h.1 := h.2]> d) ∅ hs.

(** [d.get(k, dflt)]. *)
Definition dict_get (d : gmap string string) (k dflt : string) : string :=
  default dflt (d !! k).

(** ** Constants of [gmail_spam_checker.py] *)

Definition PROCESSED_LABEL_NAME : string := "ML_PROCESSED".
Definition POLL_INTERVAL_SECONDS : Z := 60.
Definition SPAM_CONFIDENCE_THRESHOLD : float := 0.95%float.
Definition TRUSTED_DOMAINS : list string :=
  ["@google.com"; "@gmail.com"; "@github.com"; "@microsoft.com"; "@amazon.com"].

(** ** [spam_classifier.py] *)

(** The tokenizer, the model and the softmax are outside the repository:
    [run_model] is lines 65-79 of [get_spam_probabilities_batch], the list
    [predictions[:, 1].tolist()] or the exception raised on the way. *)
Record SpamClassifier : Type := mkClassifier {
  run_model : list string -> result (list float)
}.

Definition get_spam_probabilities_batch (self : SpamClassifier)
    (texts : list string) : M (list float) :=
  try_except
    (emit (ModelRun texts) ;;
     match run_model self texts with
     | Ok spam_probabilities => mret spam_probabilities
     | Raise e => raise e
     end)
    is_Exception
    (fun e =>
       logging ERROR (BatchClassificationError e) ;;
       mret (repeat 0.0%float (length texts))).

(** [self.get_spam_probabilities_batch([text])[0]]; indexing an empty list
    is an IndexError. *)
Definition get_spam_probability (self : SpamClassifier) (text : string)
    : M float :=
  ps ← get_spam_probabilities_batch self [text];
  match ps with
  | p :: _ => mret p
  | [] => raise OtherException
  end.

(** ** The Gmail service *)

Definition next_fault (w : World) : option exn :=
  match script w with
  | Some e :: _ => Some e
  | _ => None
  end.

Definition advance (w : World) : list (option exn) := tail (script w).

(** One [....execute()]: the request is issued, then the scripted fault is
    raised, or the provider serves the request (which can itself be refused
    with an [HttpError], leaving the provider's state as it was). *)
Definition execute {A : Type} (request : event)
    (serve : Gmail -> option (A * Gmail)) : M A := fun w =>
  match next_fault w with
  | Some e => mkOut (Raise e) (mkWorld (gmail w) (advance w)) [request]
  | None =>
      match serve (gmail w) with
      | Some (a, g') => mkOut (Ok a) (mkWorld g' (advance w)) [request]
      | None => mkOut (Raise HttpError) (mkWorld (gmail w) (advance w)) [request]
      end
  end.

Definition has_id (id : string) (e : Email) : bool := String.eqb (email_id e) id.

(** [addLabelIds]/[removeLabelIds] on one message's label ids. *)
Definition relabel (add remove : list string) (e : Email) : Email :=
  let kept := List.filter (fun l => negb (existsb (String.eqb l) remove)) (email_labelIds e) in
  let new := List.filter (fun l => negb (existsb (String.eqb l) kept)) add in
  mkEmail (email_id e) (email_headers e) (email_snippet e) (kept ++ new).

Definition relabel_message (id : string) (add remove : list string)
    (e : Email) : Email :=
  if has_id id e then relabel add remove e else e.

Section Poller.

(** What the code takes from outside the repository:
    - [lower] is Python's [str.lower];
    - [matches q labels e] is the provider's reading of the search query
      [q] on one stored message;
    - [fresh_label_id] is the identifier the provider gives a new label. *)
Variable lower : string -> string.
Variable matches : string -> list Label -> Email -> bool.
Variable fresh_label_id : list Label -> string.

Definition users_labels_list : M (list Label) :=
  execute LabelsList (fun g => Some (gm_labels g, g)).

Definition users_labels_create (name llv mlv : string) : M Label :=
  execute (LabelsCreate name llv mlv) (fun g =>
    let l := mkLabel (fresh_label_id (gm_labels g)) name llv mlv in
    Some (l, mkGmail (gm_labels g ++ [l]) (gm_messages g))).

(** [response.get('messages', [])], as the ids of the message references. *)
Definition listing (q : string) (g : Gmail) : list string :=
  map email_id (List.filter (matches q (gm_labels g)) (gm_messages g)).

Definition users_messages_list (q : string) : M (list string) :=
  execute (MessagesList q) (fun g => Some (listing q g, g)).

Definition users_messages_get (id : string) : M Email :=
  execute (MessagesGet id) (fun g =>
    match find (has_id id) (gm_messages g) with
    | Some e => Some (e, g)
    | None => None
    end).

Definition users_messages_modify (id : string) (add remove : list string)
    : M unit :=
  execute (MessagesModify id add remove) (fun g =>
    match find (has_id id) (gm_messages g) with
    | Some _ =>
        Some (tt, mkGmail (gm_labels g)
                          (map (relabel_message id add remove) (gm_messages g)))
    | None => None
    end).

(** ** [gmail_spam_checker.py] *)

Definition is_processed_label (label : Label) : bool :=
  String.eqb (label_name label) PROCESSED_LABEL_NAME.

Definition ensure_processed_label : M (option string) :=
  try_except
    (labels ← users_labels_list;
     match find is_processed_label labels with
     | Some label =>
         logging INFO (FoundExistingLabel PROCESSED_LABEL_NAME) ;;
         mret (Some (label_id label))
     | None =>
         logging INFO (CreatingLabel PROCESSED_LABEL_NAME) ;;
         created_label ← users_labels_create PROCESSED_LABEL_NAME "labelHide" "hide";
         mret (Some (label_id created_label))
     end)
    is_HttpError
    (fun e => logging ERROR (FailedToEnsureLabel e) ;; mret None).

Definition modify_message_labels (msg_id : string)
    (labels_to_add labels_to_remove : list string) : M unit :=
  try_except
    (users_messages_modify msg_id labels_to_add labels_to_remove)
    is_HttpError
    (fun e => logging ERROR (FailedToModifyLabels msg_id e)).

Definition subject_of (email : Email) : string :=
  dict_get (headers_dict (email_headers email)) "Subject" "[No Subject]".

Definition sender_of (email : Email) : string :=
  dict_get (headers_dict (email_headers email)) "From" "[No Sender]".

(** [any(domain in sender.lower() for domain in TRUSTED_DOMAINS)] *)
Definition is_trusted (sender : string) : bool :=
  existsb (fun domain => str_in domain (lower sender)) TRUSTED_DOMAINS.

Definition text_to_classify (subject sender snippet : string) : string :=
  "Subject: " +:+ subject +:+ " From: " +:+ sender +:+ " Body: " +:+ snippet.

(** The body of [for msg in messages:] (lines 110-130). *)
Definition process_message (classifier : SpamClassifier)
    (processed_label_id : string) (msg_id : string) : M unit :=
  email ← users_messages_get msg_id;
  let subject := subject_of email in
  let sender := sender_of email in
  let snippet := email_snippet email in
  if is_trusted sender then
    logging INFO (TRUSTED subject sender) ;;
    modify_message_labels (email_id email) [processed_label_id] []
  else
    spam_probability ←
      get_spam_probability classifier (text_to_classify subject sender snippet);
    if (SPAM_CONFIDENCE_THRESHOLD <? spam_probability)%float then
      logging WARNING (SPAM spam_probability subject) ;;
      modify_message_labels (email_id email) ["SPAM"] ["INBOX"]
    else
      logging INFO (NOT_SPAM spam_probability subject) ;;
      modify_message_labels (email_id email) [processed_label_id] [].

Definition query : string := "is:unread -label:" +:+ PROCESSED_LABEL_NAME.

(** One turn of [while True:] (lines 99-137). *)
Definition poll_cycle (classifier : SpamClassifier)
    (processed_label_id : string) : M unit :=
  try_except
    (messages ← users_messages_list query;
     match messages with
     | [] => logging INFO NoNewMessages
     | _ => logging INFO (FoundMessages (length messages))
     end ;;
     for_each messages (process_message classifier processed_label_id))
    is_Exception
    (fun e =>
       if is_HttpError e then logging ERROR (ApiError e)
       else logging ERROR (UnexpectedError e)) ;;
  emit (Sleep POLL_INTERVAL_SECONDS).

(** How a bounded run of [poll_gmail] stands: the function returned, or
    it is still inside [while True:] when the turns it was given are used
    up. *)
Inductive status : Type := Returned | StillPolling.

Fixpoint poll_loop (turns : nat) (classifier : SpamClassifier)
    (processed_label_id : string) : M status :=
  match turns with
  | O => mret StillPolling
  | S n =>
      poll_cycle classifier processed_label_id ;;
      poll_loop n classifier processed_label_id
  end.

(** [poll_gmail]; [creds] is what [get_credentials()] returned. *)
Definition poll_gmail (turns : nat) (creds : option string)
    (classifier : SpamClassifier) : M status :=
  match creds with
  | None => logging ERROR NoCredentials ;; mret Returned
  | Some _ =>
      processed_label_id ← ensure_processed_label;
      match processed_label_id with
      | None => logging ERROR NoProcessingLabel ;; mret Returned
      | Some id =>
          if String.eqb id "" then
            logging ERROR NoProcessingLabel ;; mret Returned
          else poll_loop turns classifier id
      end
  end.

End Poller.

(** ** Reading a run's events *)

(** The three ways a fetched message is disposed of; each branch of the
    loop body announces its own on the log. *)
Inductive Decision : Type := Trusted | Spam | Ham.

Definition decision_of_event (ev : event) : option Decision :=
  match ev with
  | Log _ (TRUSTED _ _) => Some Trusted
  | Log _ (SPAM _ _) => Some Spam
  | Log _ (NOT_SPAM _ _) => Some Ham
  | _ => None
  end.

Definition mutation_of_event (ev : event)
    : option (string * list string * list string) :=
  match ev with
  | MessagesModify id add remove => Some (id, add, remove)
  | _ => None
  end.

Definition model_run_of_event (ev : event) : option (list string) :=
  match ev with
  | ModelRun texts => Some texts
  | _ => None
  end.

Definition fetch_of_event (ev : event) : option string :=
  match ev with
  | MessagesGet id => Some id
  | _ => None
  end.

Definition sleep_of_event (ev : event) : option Z :=
  match ev with
  | Sleep s => Some s
  | _ => None
  end.

Definition decisions (evs : list event) : list Decision :=
  omap decision_of_event evs.
Definition mutations (evs : list event)
    : list (string * list string * list string) :=
  omap mutation_of_event evs.
Definition model_runs (evs : list event) : list (list string) :=
  omap model_run_of_event evs.
Definition fetches (evs : list event) : list string :=
  omap fetch_of_event evs.
Definition sleeps (evs : list event) : list Z :=
  omap sleep_of_event evs.

(** Events that touch messages: listing, fetching, relabelling, running
    the model, sleeping between turns. *)
Definition is_polling_event (ev : event) : bool :=
  match ev with
  | MessagesList _ | MessagesGet _ | MessagesModify _ _ _
  | ModelRun _ | Sleep _ => true
  | _ => false
  end.

Definition is_label_creation (ev : event) : bool :=
  match ev with
  | LabelsCreate _ _ _ => true
  | _ => false
  end.

(** The outcome table of the specification, in its words:
    Trusted and Ham add the processed label and remove nothing, Spam adds
    SPAM and removes INBOX. *)
Definition spec_apply (d : Decision) (processedLabel : string)
    : list string * list string :=
  match d with
  | Trusted => ([processedLabel], [])
  | Ham => ([processedLabel], [])
  | Spam => (["SPAM"], ["INBOX"])
  end.

Definition modify_failure_of_event (ev : event) : option (string * exn) :=
  match ev with
  | Log _ (FailedToModifyLabels id e) => Some (id, e)
  | _ => None
  end.

(** The label requests that the log reports as failed. *)
Definition modify_failures (evs : list event) : list (string * exn) :=
  omap modify_failure_of_event evs.

(** The labels of the account that carry the reserved name. *)
Definition processed_labels (g : Gmail) : list Label :=
  List.filter is_processed_label (gm_labels g).

(** The two events that frame a turn of the loop: its listing request and
    the sleep that ends it. *)
Definition is_turn_event (ev : event) : bool :=
  match ev with
  | MessagesList _ | Sleep _ => true
  | _ => false
  end.

Definition turn_events (evs : list event) : list event :=
  List.filter is_turn_event evs.

(** Faults that [except Exception] can catch: everything but an
    exception outside [Exception], which is how the process is stopped
    from outside. *)
Definition is_recoverable (f : option exn) : bool :=
  match f with
  | Some e => is_Exception e
  | None => true
  end.

Definition recoverable (w : World) : bool := forallb is_recoverable (script w).

Definition model_recoverable (classifier : SpamClassifier) : Prop :=
  forall texts e, run_model classifier texts = Raise e -> is_Exception e = true.

(** ** Properties of runs *)

(** The label set-up fails: the listing request raises, or no label bears
    the reserved name and the creation request raises. *)
Definition label_setup_fails (w : World) (e : exn) : Prop :=
  next_fault w = Some e \/
  (next_fault w = None /\
   find is_processed_label (gm_labels (gmail w)) = None /\
   next_fault (mkWorld (gmail w) (advance w)) = Some e).

(** A computation is contained when, from a world whose faults are all
    recoverable, it can only raise what [except Exception] catches, leaves
    such a world behind, and neither lists messages nor sleeps. *)
Definition contained {A : Type} (m : M A) : Prop :=
  forall w, recoverable w = true ->
    (forall e, out_res (m w) = Raise e -> is_Exception e = true) /\
    recoverable (out_world (m w)) = true /\
    turn_events (out_events (m w)) = [].

(** The isolation the specification asks for: whenever the listing request
    of a turn succeeds and the failures are recoverable, every message of
    the batch is at least fetched in that turn. *)
Definition per_message_isolation : Prop :=
  forall (lower : string -> string)
         (matches : string -> list Label -> Email -> bool)
         (classifier : SpamClassifier) (processed_label_id : string)
         (w : World),
    recoverable w = true -> model_recoverable classifier ->
    next_fault w = None ->
    forall id, In id (listing matches query (gmail w)) ->
      In id (fetches (out_events
                        (poll_cycle lower matches classifier
                                    processed_label_id w))).

(** ** [get_credentials] (lines 27-48) *)

Definition SCOPES : list string :=
  ["https://www.googleapis.com/auth/gmail.modify"].
Definition CREDENTIALS_FILE : string := "credentials.json".
Definition TOKEN_FILE : string := "token.json".

(** What the function reads of a [Credentials] object. *)
Record Credentials : Type := mkCredentials {
  valid : bool;
  expired : bool;
  refresh_token : option string;
  to_json : string
}.

(** [creds.refresh_token] in a condition: [None] and the empty string are
    false. *)
Definition has_refresh_token (c : Credentials) : bool :=
  match refresh_token c with
  | Some t => negb (String.eqb t "")
  | None => false
  end.

(** What [get_credentials] meets outside the repository:
    - [token_file]: whether [TOKEN_FILE] exists and, when it does, what
      [Credentials.from_authorized_user_file] makes of it;
    - [refresh c]: the object after [creds.refresh(Request())], or the
      exception raised;
    - [run_flow]: what [InstalledAppFlow.from_client_secrets_file(...)
      .run_local_server(port=0)] returns or raises;
    - [write_fault]: whether opening or writing [TOKEN_FILE] raises. *)
Record AuthEnv : Type := mkAuthEnv {
  token_file : option (result Credentials);
  refresh : Credentials -> result Credentials;
  run_flow : result (option Credentials);
  write_fault : option exn
}.

Inductive auth_event : Type :=
| LoadToken (path : string) (scopes : list string)
| RefreshToken
| LogRefreshFailed (e : exn)
| RunFlow (secrets : string) (scopes : list string)
| OpenForWrite (path : string)
| WriteToken (json : string).

(** A step of [get_credentials]: its value or exception, and what it did. *)
Definition Auth (A : Type) : Type := (result A * list auth_event)%type.

Definition auth_bind {A B : Type} (m : Auth A) (f : A -> Auth B) : Auth B :=
  match m with
  | (Ok a, evs) => let '(r, evs') := f a in (r, evs ++ evs')
  | (Raise e, evs) => (Raise e, evs)
  end.

(** Lines 30-31. *)
Definition load_token (env : AuthEnv) : Auth (option Credentials) :=
  match token_file env with
  | None => (Ok None, [])
  | Some (Ok c) => (Ok (Some c), [LoadToken TOKEN_FILE SCOPES])
  | Some (Raise e) => (Raise e, [LoadToken TOKEN_FILE SCOPES])
  end.

(** Lines 34-39. *)
Definition refresh_step (env : AuthEnv) (creds : option Credentials)
    : Auth (option Credentials) :=
  match creds with
  | Some c =>
      if expired c && has_refresh_token c then
        match refresh env c with
        | Ok c' => (Ok (Some c'), [RefreshToken])
        | Raise e =>
            if is_Exception e then (Ok None, [RefreshToken; LogRefreshFailed e])
            else (Raise e, [RefreshToken])
        end
      else (Ok creds, [])
  | None => (Ok None, [])
  end.

(** Lines 41-43. *)
Definition flow_step (env : AuthEnv) (creds : option Credentials)
    : Auth (option Credentials) :=
  match creds with
  | Some _ => (Ok creds, [])
  | None =>
      match run_flow env with
      | Ok c => (Ok c, [RunFlow CREDENTIALS_FILE SCOPES])
      | Raise e => (Raise e, [RunFlow CREDENTIALS_FILE SCOPES])
      end
  end.

(** Lines 45-46; [None.to_json()] is an AttributeError, raised once the
    file is open. *)
Definition write_step (env : AuthEnv) (creds : option Credentials)
    : Auth (option Credentials) :=
  match write_fault env with
  | Some e => (Raise e, [OpenForWrite TOKEN_FILE])
  | None =>
      match creds with
      | Some c => (Ok creds, [OpenForWrite TOKEN_FILE; WriteToken (to_json c)])
      | None => (Raise OtherException, [OpenForWrite TOKEN_FILE])
      end
  end.

Definition get_credentials (env : AuthEnv) : Auth (option Credentials) :=
  auth_bind (load_token env) (fun creds =>
    if match creds with Some c => negb (valid c) | None => true end then
      auth_bind (refresh_step env creds) (fun creds =>
        auth_bind (flow_step env creds) (fun creds =>
          write_step env creds))
    else (Ok creds, [])).

(** ** Invariants of runs *)

(** A property of events that holds of everything a computation does, from
    any world. *)
Definition always {A : Type} (P : event -> Prop) (m : M A) : Prop :=
  forall w, Forall P (out_events (m w)).

(** What the loop may do: list with the one query, fetch, ask for one of
    the two label changes, run the model on one text built from a message,
    log, sleep for the poll interval; no request on the labels of the
    account. *)
Definition loop_event_ok (processed_label_id : string) (ev : event) : Prop :=
  match ev with
  | LabelsList | LabelsCreate _ _ _ => False
  | MessagesList q => q = query
  | MessagesGet _ => True
  | MessagesModify _ add remove =>
      (add = [processed_label_id] /\ remove = []) \/
      (add = ["SPAM"] /\ remove = ["INBOX"])
  | ModelRun texts =>
      exists subject sender snippet,
        texts = [text_to_classify subject sender snippet]
  | Log _ _ => True
  | Sleep s => s = POLL_INTERVAL_SECONDS
  end.

(** A computation that leaves the labels of the account as they are. *)
Definition keeps_labels {A : Type} (m : M A) : Prop :=
  forall w, gm_labels (gmail (out_world (m w))) = gm_labels (gmail w).

Definition is_label_request (ev : event) : bool :=
  match ev with
  | LabelsList | LabelsCreate _ _ _ => true
  | _ => false
  end.

(** What a turn logs about the size of its batch. *)
Definition batch_log (messages : list string) : logmsg :=
  match messages with
  | [] => NoNewMessages
  | _ :: _ => FoundMessages (length messages)
  end.

(** The last header of a given name, if any. *)
Definition last_header (name : string) (hs : list (string * string))
    : option string :=
  option_map snd (find (fun h => String.eqb (fst h) name) (rev hs)).

(** The error line a turn logs for an exception it caught. *)
Definition cycle_error (e : exn) : event :=
  Log ERROR (if is_HttpError e then ApiError e else UnexpectedError e).

(** ** Exceptions that leave the loop body *)

(** The single classification raises: the model gave back no probability
    (the IndexError of [[0]]), or it raised outside [Exception]. *)
Definition model_escapes (classifier : SpamClassifier) (text : string)
    (e : exn) : Prop :=
  (run_model classifier [text] = Ok [] /\ e = OtherException) \/
  (run_model classifier [text] = Raise e /\ is_Exception e = false).

(** The label request raises: its fault is not an [HttpError]. *)
Definition label_request_escapes (w : World) (e : exn) : Prop :=
  next_fault w = Some e /\ is_HttpError e = false.

(** The ways [e] can leave the loop body for message [id] from world [w]:
    the fetch raises it (a fault, or the provider refusing an unknown id),
    or the classification of a sender that is not trusted raises it, or
    the label request that follows raises it. *)
Definition escapes_loop_body (lower : string -> string)
    (classifier : SpamClassifier) (id : string) (w : World) (e : exn) : Prop :=
  let w1 := mkWorld (gmail w) (advance w) in
  match next_fault w with
  | Some e' => e = e'
  | None =>
      match find (has_id id) (gm_messages (gmail w)) with
      | None => e = HttpError
      | Some email =>
          let text := text_to_classify (subject_of email) (sender_of email)
                                       (email_snippet email) in
          if is_trusted lower (sender_of email) then label_request_escapes w1 e
          else
            model_escapes classifier text e \/
            ((forall e', ~ model_escapes classifier text e') /\
             label_request_escapes w1 e)
      end
  end.

(** ** A concrete provider for the scenarios *)

Module Scenario.

(** [str.lower] on ASCII text. *)
Definition ascii_lower_char (c : ascii) : ascii :=
  let n := nat_of_ascii c in
  if (65 <=? n)%nat && (n <=? 90)%nat then ascii_of_nat (n + 32) else c.

Fixpoint ascii_lower (s : string) : string :=
  match s with
  | EmptyString => EmptyString
  | String c s' => String (ascii_lower_char c) (ascii_lower s')
  end.

Definition has_label (l : string) (e : Email) : bool :=
  existsb (String.eqb l) (email_labelIds e).

(** Unread, outside spam, and carrying no label named as the query
    excludes. *)
Definition unread_unprocessed (q : string) (labels : list Label)
    (e : Email) : bool :=
  has_label "UNREAD" e && negb (has_label "SPAM" e) &&
  negb (existsb (fun l => str_in (label_name l) q && has_label (label_id l) e)
          labels).

Definition next_label_id (labels : list Label) : string :=
  "Label_" +:+ pretty (S (length labels)).

Definition processed : Label :=
  mkLabel "Label_7" "ML_PROCESSED" "labelHide" "hide".

Definition mail (id sender subject snippet : string) : Email :=
  mkEmail id [("Subject", subject); ("From", sender)] snippet
          ["UNREAD"; "INBOX"].

Definition m1 : Email :=
  mail "m1" "Alerts <alerts@GitHub.com>" "Build failed" "Your build failed".
Definition m2 : Email :=
  mail "m2" "random@unknown.biz" "You won" "Claim your prize now".
Definition m3 : Email :=
  mail "m3" "friend@example.org" "Lunch" "Still on for lunch tomorrow?".

Definition inbox : Gmail := mkGmail [processed] [m1; m2; m3].

(** A classifier that is sure of everything, one that is unsure, and
    one whose model raises. *)
Definition sure : SpamClassifier :=
  mkClassifier (fun texts => Ok (map (fun _ => 0.99%float) texts)).
Definition unsure : SpamClassifier :=
  mkClassifier (fun texts => Ok (map (fun _ => 0.40%float) texts)).
Definition broken : SpamClassifier :=
  mkClassifier (fun _ => Raise OtherException).

End Scenario.

Example github_is_trusted :
  is_trusted Scenario.ascii_lower (sender_of Scenario.m1) = true.
Proof. vm_compute. reflexivity. Qed.

Example scenario_trusted :
  out_events (process_message Scenario.ascii_lower Scenario.sure "Label_7" "m1"
                (mkWorld Scenario.inbox []))
  = [MessagesGet "m1";
     Log INFO (TRUSTED "Build failed" "Alerts <alerts@GitHub.com>");
     MessagesModify "m1" ["Label_7"] []].
Proof. vm_compute. reflexivity. Qed.

Example scenario_spam :
  out_events (process_message Scenario.ascii_lower Scenario.sure "Label_7" "m2"
                (mkWorld Scenario.inbox []))
  = [MessagesGet "m2";
     ModelRun ["Subject: You won From: random@unknown.biz Body: Claim your prize now"];
     Log WARNING (SPAM 0.99%float "You won");
     MessagesModify "m2" ["SPAM"] ["INBOX"]].
Proof. vm_compute. reflexivity. Qed.

Example scenario_ham :
  out_events (process_message Scenario.ascii_lower Scenario.unsure "Label_7" "m2"
                (mkWorld Scenario.inbox []))
  = [MessagesGet "m2";
     ModelRun ["Subject: You won From: random@unknown.biz Body: Claim your prize now"];
     Log INFO (NOT_SPAM 0.40%float "You won");
     MessagesModify "m2" ["Label_7"] []].
Proof. vm_compute. reflexivity. Qed.

Example scenario_cycle :
  let o := poll_cycle Scenario.ascii_lower Scenario.unread_unprocessed
             Scenario.sure "Label_7" (mkWorld Scenario.inbox []) in
  mutations (out_events o)
  = [("m1", ["Label_7"], []); ("m2", ["SPAM"], ["INBOX"]); ("m3", ["SPAM"], ["INBOX"])]
  /\ listing Scenario.unread_unprocessed query (gmail (out_world o)) = [].
Proof. vm_compute. split; reflexivity. Qed.

(** ** How each operation runs *)

Lemma bind_run {A B : Type} (m : M A) (f : A -> M B) (w : World) :
  (m ≫= f) w =
  match out_res (m w) with
  | Ok a =>
      mkOut (out_res (f a (out_world (m w)))) (out_world (f a (out_world (m w))))
            (out_events (m w) ++ out_events (f a (out_world (m w))))
  | Raise e => mkOut (Raise e) (out_world (m w)) (out_events (m w))
  end.
Proof. reflexivity. Qed.

Lemma users_messages_get_run (id : string) (w : World) :
  users_messages_get id w =
  match next_fault w with
  | Some e => mkOut (Raise e) (mkWorld (gmail w) (advance w)) [MessagesGet id]
  | None =>
      match find (has_id id) (gm_messages (gmail w)) with
      | Some email => mkOut (Ok email) (mkWorld (gmail w) (advance w)) [MessagesGet id]
      | None => mkOut (Raise HttpError) (mkWorld (gmail w) (advance w)) [MessagesGet id]
      end
  end.
Proof.
  unfold users_messages_get, execute.
  destruct (next_fault w); [reflexivity|].
  destruct (find (has_id id) (gm_messages (gmail w))); reflexivity.
Qed.

Lemma modify_message_labels_run (id : string) (add remove : list string)
    (w : World) :
  modify_message_labels id add remove w =
  match next_fault w with
  | Some e =>
      if is_HttpError e then
        mkOut (Ok tt) (mkWorld (gmail w) (advance w))
              [MessagesModify id add remove; Log ERROR (FailedToModifyLabels id e)]
      else
        mkOut (Raise e) (mkWorld (gmail w) (advance w)) [MessagesModify id add remove]
  | None =>
      match find (has_id id) (gm_messages (gmail w)) with
      | Some _ =>
          mkOut (Ok tt)
                (mkWorld (mkGmail (gm_labels (gmail w))
                            (map (relabel_message id add remove)
                                 (gm_messages (gmail w))))
                         (advance w))
                [MessagesModify id add remove]
      | None =>
          mkOut (Ok tt) (mkWorld (gmail w) (advance w))
                [MessagesModify id add remove;
                 Log ERROR (FailedToModifyLabels id HttpError)]
      end
  end.
Proof.
  unfold modify_message_labels, try_except, users_messages_modify, execute.
  destruct (next_fault w) as [e|].
  - destruct e; reflexivity.
  - destruct (find (has_id id) (gm_messages (gmail w))); reflexivity.
Qed.

Lemma get_spam_probabilities_batch_run (self : SpamClassifier)
    (texts : list string) (w : World) :
  get_spam_probabilities_batch self texts w =
  match run_model self texts with
  | Ok ps => mkOut (Ok ps) w [ModelRun texts]
  | Raise e =>
      if is_Exception e then
        mkOut (Ok (repeat 0.0%float (length texts))) w
              [ModelRun texts; Log ERROR (BatchClassificationError e)]
      else mkOut (Raise e) w [ModelRun texts]
  end.
Proof.
  unfold get_spam_probabilities_batch, try_except.
  rewrite bind_run. cbn.
  destruct (run_model self texts) as [ps|e]; [reflexivity|].
  destruct e; reflexivity.
Qed.

Lemma get_spam_probability_run (self : SpamClassifier) (text : string)
    (w : World) :
  get_spam_probability self text w =
  match run_model self [text] with
  | Ok (p :: _) => mkOut (Ok p) w [ModelRun [text]]
  | Ok [] => mkOut (Raise OtherException) w [ModelRun [text]]
  | Raise e =>
      if is_Exception e then
        mkOut (Ok 0.0%float) w
              [ModelRun [text]; Log ERROR (BatchClassificationError e)]
      else mkOut (Raise e) w [ModelRun [text]]
  end.
Proof.
  unfold get_spam_probability.
  rewrite bind_run, get_spam_probabilities_batch_run.
  destruct (run_model self [text]) as [[|p ps]|e]; try reflexivity.
  destruct e; reflexivity.
Qed.

(** The label request of a message is the only thing
    [modify_message_labels] adds to what a run shows of decisions, model
    runs and fetches. *)
Lemma modify_message_labels_shows (id : string) (add remove : list string)
    (w : World) :
  let evs := out_events (modify_message_labels id add remove w) in
  decisions evs = [] /\ mutations evs = [(id, add, remove)] /\
  model_runs evs = [] /\ fetches evs = [] /\ sleeps evs = [].
Proof.
  rewrite modify_message_labels_run.
  destruct (next_fault w) as [e|].
  - destruct e; cbn; repeat split; reflexivity.
  - destruct (find (has_id id) (gm_messages (gmail w)));
      cbn; repeat split; reflexivity.
Qed.

(** The loop body on a message whose fetch succeeds and whose sender is
    trusted. *)
Lemma process_message_trusted (lower : string -> string)
    (classifier : SpamClassifier) (processed_label_id id : string)
    (w : World) (email : Email) :
  next_fault w = None ->
  find (has_id id) (gm_messages (gmail w)) = Some email ->
  is_trusted lower (sender_of email) = true ->
  let o := modify_message_labels (email_id email) [processed_label_id] []
             (mkWorld (gmail w) (advance w)) in
  process_message lower classifier processed_label_id id w =
  mkOut (out_res o) (out_world o)
        (MessagesGet id
         :: Log INFO (TRUSTED (subject_of email) (sender_of email))
         :: out_events o).
Proof.
  intros Hfault Hfind Htrust o.
  unfold process_message.
  rewrite bind_run, users_messages_get_run, Hfault, Hfind.
  cbn [out_res out_world out_events].
  rewrite Htrust. rewrite bind_run. reflexivity.
Qed.

Lemma get_spam_probability_world (self : SpamClassifier) (text : string)
    (w : World) :
  out_world (get_spam_probability self text w) = w.
Proof.
  rewrite get_spam_probability_run.
  destruct (run_model self [text]) as [[|p ps]|e]; try reflexivity.
  destruct (is_Exception e); reflexivity.
Qed.

(** The model's answer does not depend on the provider's state. *)
Lemma get_spam_probability_res (self : SpamClassifier) (text : string)
    (w w' : World) :
  out_res (get_spam_probability self text w) =
  out_res (get_spam_probability self text w').
Proof.
  rewrite !get_spam_probability_run.
  destruct (run_model self [text]) as [[|p ps]|e]; try reflexivity.
  destruct (is_Exception e); reflexivity.
Qed.

Lemma get_spam_probability_shows (self : SpamClassifier) (text : string)
    (w : World) :
  let evs := out_events (get_spam_probability self text w) in
  decisions evs = [] /\ mutations evs = [] /\
  model_runs evs = [[text]] /\ fetches evs = [] /\ sleeps evs = [].
Proof.
  rewrite get_spam_probability_run.
  destruct (run_model self [text]) as [[|p ps]|e];
    try (cbn; repeat split; reflexivity).
  destruct (is_Exception e); cbn; repeat split; reflexivity.
Qed.

(** The loop body on a message whose fetch succeeds and whose sender is
    not trusted. *)
Lemma process_message_untrusted (lower : string -> string)
    (classifier : SpamClassifier) (processed_label_id id : string)
    (w : World) (email : Email) :
  next_fault w = None ->
  find (has_id id) (gm_messages (gmail w)) = Some email ->
  is_trusted lower (sender_of email) = false ->
  let w1 := mkWorld (gmail w) (advance w) in
  let c := get_spam_probability classifier
             (text_to_classify (subject_of email) (sender_of email)
                               (email_snippet email)) w1 in
  process_message lower classifier processed_label_id id w =
  match out_res c with
  | Ok p =>
      if (SPAM_CONFIDENCE_THRESHOLD <? p)%float then
        let o := modify_message_labels (email_id email) ["SPAM"] ["INBOX"] w1 in
        mkOut (out_res o) (out_world o)
              (MessagesGet id
               :: out_events c ++ Log WARNING (SPAM p (subject_of email))
               :: out_events o)
      else
        let o := modify_message_labels (email_id email) [processed_label_id] [] w1 in
        mkOut (out_res o) (out_world o)
              (MessagesGet id
               :: out_events c ++ Log INFO (NOT_SPAM p (subject_of email))
               :: out_events o)
  | Raise e => mkOut (Raise e) w1 (MessagesGet id :: out_events c)
  end.
Proof.
  intros Hfault Hfind Htrust w1 c.
  unfold process_message.
  rewrite bind_run, users_messages_get_run, Hfault, Hfind.
  cbn [out_res out_world out_events].
  rewrite Htrust, bind_run. fold w1. fold c.
  assert (Hw : out_world c = w1) by apply get_spam_probability_world.
  destruct (out_res c) as [p|e]; [|rewrite Hw; reflexivity].
  destruct (SPAM_CONFIDENCE_THRESHOLD <? p)%float;
    rewrite bind_run; cbn [logging emit out_res out_world out_events];
    rewrite Hw; reflexivity.
Qed.

Lemma is_trusted_iff (lower : string -> string) (sender : string) :
  is_trusted lower sender = true <->
  exists domain, In domain TRUSTED_DOMAINS /\
                 str_in domain (lower sender) = true.
Proof. unfold is_trusted. apply existsb_exists. Qed.

Lemma decisions_app (evs evs' : list event) :
  decisions (evs ++ evs') = decisions evs ++ decisions evs'.
Proof. apply omap_app. Qed.

Lemma mutations_app (evs evs' : list event) :
  mutations (evs ++ evs') = mutations evs ++ mutations evs'.
Proof. apply omap_app. Qed.

Lemma model_runs_app (evs evs' : list event) :
  model_runs (evs ++ evs') = model_runs evs ++ model_runs evs'.
Proof. apply omap_app. Qed.

Lemma fetches_app (evs evs' : list event) :
  fetches (evs ++ evs') = fetches evs ++ fetches evs'.
Proof. apply omap_app. Qed.

Lemma sleeps_app (evs evs' : list event) :
  sleeps (evs ++ evs') = sleeps evs ++ sleeps evs'.
Proof. apply omap_app. Qed.

(** IEEE comparison is irreflexive: no probability exceeds itself. *)
Lemma float_ltb_irrefl (x : float) : (x <? x)%float = false.
Proof.
  rewrite ltb_spec. unfold SFltb.
  destruct (Prim2SF x) as [s|s| |s m e]; cbn; try reflexivity.
  - destruct s; reflexivity.
  - destruct s; rewrite Z.compare_refl, Pos.compare_cont_refl; reflexivity.
Qed.

(** ** Triage decisions *)

(** What a run of the loop body shows for a trusted sender. *)
Lemma process_message_trusted_shows (lower : string -> string)
    (classifier : SpamClassifier) (processed_label_id id : string)
    (w : World) (email : Email) :
  next_fault w = None ->
  find (has_id id) (gm_messages (gmail w)) = Some email ->
  is_trusted lower (sender_of email) = true ->
  let evs := out_events
               (process_message lower classifier processed_label_id id w) in
  decisions evs = [Trusted] /\
  model_runs evs = [] /\
  mutations evs = [(email_id email, [processed_label_id], [])].
Proof.
  intros Hfault Hfind Htrust.
  rewrite (process_message_trusted _ _ _ _ _ _ Hfault Hfind Htrust).
  cbn [out_events].
  destruct (modify_message_labels_shows (email_id email) [processed_label_id] []
              (mkWorld (gmail w) (advance w))) as (Hd & Hm & Hr & _).
  cbn zeta in Hd, Hm, Hr.
  change (?f (?a :: ?b :: ?l)) with (f ([a; b] ++ l)).
  rewrite decisions_app, model_runs_app, mutations_app, Hd, Hm, Hr.
  repeat split; reflexivity.
Qed.

(** C1: a fetched message whose lower-cased sender header contains one of
    the trusted domains is disposed of as Trusted, whatever its subject and
    snippet, the model is not run for it, and the only label request is the
    one that adds the processed label. *)
Theorem trusted_sender_bypasses_classifier (lower : string -> string)
    (classifier : SpamClassifier) (processed_label_id id : string)
    (w : World) (email : Email) :
  next_fault w = None ->
  find (has_id id) (gm_messages (gmail w)) = Some email ->
  (exists domain, In domain TRUSTED_DOMAINS /\
                  str_in domain (lower (sender_of email)) = true) ->
  let evs := out_events
               (process_message lower classifier processed_label_id id w) in
  decisions evs = [Trusted] /\
  model_runs evs = [] /\
  mutations evs = [(email_id email, [processed_label_id], [])].
Proof.
  intros Hfault Hfind Htrust.
  apply is_trusted_iff in Htrust.
  now apply process_message_trusted_shows.
Qed.

Lemma trusted_sender_bypasses_classifier_witness :
  let evs := out_events
               (process_message Scenario.ascii_lower Scenario.sure "Label_7" "m1"
                  (mkWorld Scenario.inbox [])) in
  decisions evs = [Trusted] /\
  model_runs evs = [] /\
  mutations evs = [("m1", ["Label_7"], [])].
Proof.
  apply (trusted_sender_bypasses_classifier Scenario.ascii_lower Scenario.sure
           "Label_7" "m1" (mkWorld Scenario.inbox []) Scenario.m1).
  - reflexivity.
  - reflexivity.
  - exists "@github.com". split; [cbn; tauto | vm_compute; reflexivity].
Defined.

(** A fetch that raises ends the loop body with nothing decided. *)
Lemma process_message_fetch_raises (lower : string -> string)
    (classifier : SpamClassifier) (processed_label_id id : string)
    (w : World) (e : exn) :
  out_res (users_messages_get id w) = Raise e ->
  process_message lower classifier processed_label_id id w =
  mkOut (Raise e) (mkWorld (gmail w) (advance w)) [MessagesGet id].
Proof.
  intros Hget. unfold process_message. rewrite bind_run.
  rewrite users_messages_get_run in *.
  destruct (next_fault w) as [e0|].
  - cbn in *. congruence.
  - destruct (find (has_id id) (gm_messages (gmail w))); cbn in *; congruence.
Qed.

Lemma find_has_id (id : string) (l : list Email) (email : Email) :
  find (has_id id) l = Some email -> email_id email = id.
Proof.
  intros H. apply find_some in H as [_ H].
  unfold has_id in H. now apply String.eqb_eq in H.
Qed.

(** What a run of the loop body shows once the classifier has answered
    [p] for a message that is not trusted. *)
Lemma process_message_classified (lower : string -> string)
    (classifier : SpamClassifier) (processed_label_id id : string)
    (w : World) (email : Email) (p : float) :
  next_fault w = None ->
  find (has_id id) (gm_messages (gmail w)) = Some email ->
  is_trusted lower (sender_of email) = false ->
  out_res (get_spam_probability classifier
             (text_to_classify (subject_of email) (sender_of email)
                               (email_snippet email)) w) = Ok p ->
  let evs := out_events
               (process_message lower classifier processed_label_id id w) in
  decisions evs =
    [if (SPAM_CONFIDENCE_THRESHOLD <? p)%float then Spam else Ham] /\
  mutations evs =
    [if (SPAM_CONFIDENCE_THRESHOLD <? p)%float
     then (email_id email, ["SPAM"], ["INBOX"])
     else (email_id email, [processed_label_id], [])] /\
  model_runs evs =
    [[text_to_classify (subject_of email) (sender_of email)
                       (email_snippet email)]].
Proof.
  intros Hfault Hfind Htrust Hp.
  rewrite (process_message_untrusted _ _ _ _ _ _ Hfault Hfind Htrust).
  cbn zeta.
  set (w1 := mkWorld (gmail w) (advance w)).
  set (text := text_to_classify _ _ _) in *.
  rewrite (get_spam_probability_res classifier text w1 w), Hp.
  destruct (get_spam_probability_shows classifier text w1) as (Hcd & Hcm & Hcr & _).
  cbn zeta in Hcd, Hcm, Hcr.
  destruct (SPAM_CONFIDENCE_THRESHOLD <? p)%float; cbn [out_events].
  - destruct (modify_message_labels_shows (email_id email) ["SPAM"] ["INBOX"] w1)
      as (Hd & Hm & Hr & _). cbn zeta in Hd, Hm, Hr.
    change (?f (?a :: ?l ++ ?b :: ?l')) with (f ([a] ++ l ++ [b] ++ l')).
    rewrite !decisions_app, !mutations_app, !model_runs_app.
    rewrite Hcd, Hcm, Hcr, Hd, Hm, Hr. repeat split; reflexivity.
  - destruct (modify_message_labels_shows (email_id email) [processed_label_id] [] w1)
      as (Hd & Hm & Hr & _). cbn zeta in Hd, Hm, Hr.
    change (?f (?a :: ?l ++ ?b :: ?l')) with (f ([a] ++ l ++ [b] ++ l')).
    rewrite !decisions_app, !mutations_app, !model_runs_app.
    rewrite Hcd, Hcm, Hcr, Hd, Hm, Hr. repeat split; reflexivity.
Qed.

(** C2: for a fetched message whose sender is not trusted and for which
    the classifier answers [p], the message is disposed of as Spam exactly
    when [p] exceeds the threshold (strictly), and as Ham otherwise; a
    probability equal to the threshold gives Ham. *)
Theorem spam_iff_above_threshold (lower : string -> string)
    (classifier : SpamClassifier) (processed_label_id id : string)
    (w : World) (email : Email) (p : float) :
  next_fault w = None ->
  find (has_id id) (gm_messages (gmail w)) = Some email ->
  is_trusted lower (sender_of email) = false ->
  out_res (get_spam_probability classifier
             (text_to_classify (subject_of email) (sender_of email)
                               (email_snippet email)) w) = Ok p ->
  let evs := out_events
               (process_message lower classifier processed_label_id id w) in
  (decisions evs = [Spam] <-> (SPAM_CONFIDENCE_THRESHOLD <? p)%float = true) /\
  (decisions evs = [Ham] <-> (SPAM_CONFIDENCE_THRESHOLD <? p)%float = false) /\
  (p = SPAM_CONFIDENCE_THRESHOLD -> decisions evs = [Ham]).
Proof.
  intros Hfault Hfind Htrust Hp evs.
  destruct (process_message_classified lower classifier processed_label_id id
              w email p Hfault Hfind Htrust Hp) as (Hd & _).
  fold evs in Hd. rewrite Hd.
  repeat split.
  - destruct (SPAM_CONFIDENCE_THRESHOLD <? p)%float; [reflexivity|discriminate].
  - now intros ->.
  - destruct (SPAM_CONFIDENCE_THRESHOLD <? p)%float; [discriminate|reflexivity].
  - now intros ->.
  - intros ->. now rewrite float_ltb_irrefl.
Qed.

Lemma spam_iff_above_threshold_witness :
  let evs := out_events
               (process_message Scenario.ascii_lower Scenario.sure "Label_7" "m2"
                  (mkWorld Scenario.inbox [])) in
  (decisions evs = [Spam] <->
   (SPAM_CONFIDENCE_THRESHOLD <? 0.99%float)%float = true) /\
  (decisions evs = [Ham] <->
   (SPAM_CONFIDENCE_THRESHOLD <? 0.99%float)%float = false) /\
  (0.99%float = SPAM_CONFIDENCE_THRESHOLD -> decisions evs = [Ham]).
Proof.
  apply (spam_iff_above_threshold Scenario.ascii_lower Scenario.sure
           "Label_7" "m2" (mkWorld Scenario.inbox []) Scenario.m2 0.99%float).
  - reflexivity.
  - reflexivity.
  - vm_compute. reflexivity.
  - vm_compute. reflexivity.
Defined.

(** The boundary itself, on the code's own threshold. *)
Example threshold_boundary :
  let at_threshold :=
    mkClassifier (fun texts => Ok (map (fun _ => SPAM_CONFIDENCE_THRESHOLD) texts)) in
  decisions (out_events
               (process_message Scenario.ascii_lower at_threshold "Label_7" "m2"
                  (mkWorld Scenario.inbox []))) = [Ham].
Proof. vm_compute. reflexivity. Qed.

Lemma users_messages_get_ok (id : string) (w : World) (email : Email) :
  out_res (users_messages_get id w) = Ok email ->
  next_fault w = None /\ find (has_id id) (gm_messages (gmail w)) = Some email.
Proof.
  rewrite users_messages_get_run.
  destruct (next_fault w); [discriminate|].
  destruct (find (has_id id) (gm_messages (gmail w))); [|discriminate].
  cbn. intros [= ->]. split; reflexivity.
Qed.

(** Every run of the loop body either decides nothing and requests no
    label change (the fetch or the classifier raised), or decides once and
    requests the one label change the outcome table gives for it. *)
Lemma process_message_shows (lower : string -> string)
    (classifier : SpamClassifier) (processed_label_id id : string)
    (w : World) :
  let evs := out_events
               (process_message lower classifier processed_label_id id w) in
  (decisions evs = [] /\ mutations evs = []) \/
  (exists d, decisions evs = [d] /\
             mutations evs = [(id, (spec_apply d processed_label_id).1,
                                   (spec_apply d processed_label_id).2)]).
Proof.
  destruct (out_res (users_messages_get id w)) as [email|e] eqn:Hget.
  - apply users_messages_get_ok in Hget as [Hfault Hfind].
    pose proof (find_has_id _ _ _ Hfind) as Hid.
    destruct (is_trusted lower (sender_of email)) eqn:Htrust.
    + right. exists Trusted.
      destruct (process_message_trusted_shows lower classifier
                  processed_label_id id w email Hfault Hfind Htrust)
        as (Hd & _ & Hm).
      cbn zeta in *. rewrite Hd, Hm, Hid. split; reflexivity.
    + destruct (out_res (get_spam_probability classifier
                  (text_to_classify (subject_of email) (sender_of email)
                                    (email_snippet email)) w)) as [p|e] eqn:Hp.
      * right.
        destruct (process_message_classified lower classifier
                    processed_label_id id w email p Hfault Hfind Htrust Hp)
          as (Hd & Hm & _).
        cbn zeta in *. rewrite Hd, Hm, Hid.
        destruct (SPAM_CONFIDENCE_THRESHOLD <? p)%float;
          [exists Spam | exists Ham]; split; reflexivity.
      * left.
        rewrite (process_message_untrusted _ _ _ _ _ _ Hfault Hfind Htrust).
        cbn zeta.
        set (w1 := mkWorld (gmail w) (advance w)).
        set (text := text_to_classify _ _ _) in *.
        rewrite (get_spam_probability_res classifier text w1 w), Hp.
        cbn [out_events].
        destruct (get_spam_probability_shows classifier text w1)
          as (Hcd & Hcm & _).
        cbn zeta in Hcd, Hcm.
        change (?f (?a :: ?l)) with (f ([a] ++ l)).
        rewrite decisions_app, mutations_app, Hcd, Hcm.
        split; reflexivity.
  - left. rewrite (process_message_fetch_raises _ _ _ _ _ _ Hget).
    split; reflexivity.
Qed.

(** C3: whatever a run of the loop body decides, the label change it
    requests is the one of the outcome table: Trusted and Ham add exactly
    the processed label and remove nothing, Spam adds exactly SPAM and
    removes exactly INBOX, whatever the processed label is (so a Spam
    outcome does not add the processed label, the provider's SPAM being a
    different label), and no decision comes with an empty request. *)
Theorem decision_determines_label_mutation (lower : string -> string)
    (classifier : SpamClassifier) (processed_label_id id : string)
    (w : World) (d : Decision) :
  let evs := out_events
               (process_message lower classifier processed_label_id id w) in
  In d (decisions evs) ->
  mutations evs = [(id, (spec_apply d processed_label_id).1,
                        (spec_apply d processed_label_id).2)] /\
  match d with
  | Trusted | Ham => mutations evs = [(id, [processed_label_id], [])]
  | Spam =>
      mutations evs = [(id, ["SPAM"], ["INBOX"])] /\
      (processed_label_id <> "SPAM" ->
       forall m, In m (mutations evs) -> ~ In processed_label_id m.1.2)
  end /\
  (forall m, In m (mutations evs) -> m.1.2 <> [] \/ m.2 <> []) /\
  mutations evs <> [].
Proof.
  intros evs Hd.
  destruct (process_message_shows lower classifier processed_label_id id w)
    as [[Hnone _] | (d' & Hdec & Hmut)]; fold evs in Hnone || fold evs in Hdec, Hmut.
  - rewrite Hnone in Hd. destruct Hd.
  - rewrite Hdec in Hd. destruct Hd as [<- | []].
    rewrite Hmut. split; [reflexivity|]. split; [|split].
    + destruct d'; cbn; try reflexivity.
      split; [reflexivity|].
      intros Hne m [<- | []] [Heq | []]. cbn in Heq. congruence.
    + intros m [<- | []]. left. destruct d'; cbn; discriminate.
    + discriminate.
Qed.

Lemma decision_determines_label_mutation_witness :
  let evs := out_events
               (process_message Scenario.ascii_lower Scenario.sure "Label_7" "m2"
                  (mkWorld Scenario.inbox [])) in
  mutations evs = [("m2", ["SPAM"], ["INBOX"])] /\
  (mutations evs = [("m2", ["SPAM"], ["INBOX"])] /\
   ("Label_7" <> "SPAM" ->
    forall m, In m (mutations evs) -> ~ In "Label_7" m.1.2)) /\
  (forall m, In m (mutations evs) -> m.1.2 <> [] \/ m.2 <> []) /\
  mutations evs <> [].
Proof.
  apply (decision_determines_label_mutation Scenario.ascii_lower Scenario.sure
           "Label_7" "m2" (mkWorld Scenario.inbox []) Spam).
  vm_compute. left. reflexivity.
Defined.



(** ** The label registry *)

Lemma execute_run {A : Type} (request : event)
    (serve : Gmail -> option (A * Gmail)) (w : World) :
  execute request serve w =
  match next_fault w with
  | Some e => mkOut (Raise e) (mkWorld (gmail w) (advance w)) [request]
  | None =>
      match serve (gmail w) with
      | Some (a, g') => mkOut (Ok a) (mkWorld g' (advance w)) [request]
      | None => mkOut (Raise HttpError) (mkWorld (gmail w) (advance w)) [request]
      end
  end.
Proof. reflexivity. Qed.

Lemma ensure_processed_label_run (fresh_label_id : list Label -> string)
    (w : World) :
  let w1 := mkWorld (gmail w) (advance w) in
  let w2 := mkWorld (gmail w) (advance w1) in
  let created :=
    mkLabel (fresh_label_id (gm_labels (gmail w))) PROCESSED_LABEL_NAME
            "labelHide" "hide" in
  ensure_processed_label fresh_label_id w =
  match next_fault w with
  | Some e =>
      if is_HttpError e then
        mkOut (Ok None) w1 [LabelsList; Log ERROR (FailedToEnsureLabel e)]
      else mkOut (Raise e) w1 [LabelsList]
  | None =>
      match find is_processed_label (gm_labels (gmail w)) with
      | Some label =>
          mkOut (Ok (Some (label_id label))) w1
                [LabelsList; Log INFO (FoundExistingLabel PROCESSED_LABEL_NAME)]
      | None =>
          match next_fault w1 with
          | Some e =>
              if is_HttpError e then
                mkOut (Ok None) w2
                      [LabelsList; Log INFO (CreatingLabel PROCESSED_LABEL_NAME);
                       LabelsCreate PROCESSED_LABEL_NAME "labelHide" "hide";
                       Log ERROR (FailedToEnsureLabel e)]
              else
                mkOut (Raise e) w2
                      [LabelsList; Log INFO (CreatingLabel PROCESSED_LABEL_NAME);
                       LabelsCreate PROCESSED_LABEL_NAME "labelHide" "hide"]
          | None =>
              mkOut (Ok (Some (label_id created)))
                    (mkWorld (mkGmail (gm_labels (gmail w) ++ [created])
                                      (gm_messages (gmail w)))
                             (advance w1))
                    [LabelsList; Log INFO (CreatingLabel PROCESSED_LABEL_NAME);
                     LabelsCreate PROCESSED_LABEL_NAME "labelHide" "hide"]
          end
      end
  end.
Proof.
  intros w1 w2 created.
  unfold ensure_processed_label, try_except, users_labels_list.
  rewrite bind_run, execute_run.
  destruct (next_fault w) as [e|].
  - destruct e; reflexivity.
  - cbn [out_res out_world out_events]. fold w1.
    destruct (find is_processed_label (gm_labels (gmail w))) as [label|].
    + reflexivity.
    + unfold users_labels_create.
      rewrite !bind_run, execute_run.
      cbn [logging emit out_res out_world out_events].
      destruct (next_fault w1) as [e|].
      * destruct e; reflexivity.
      * reflexivity.
Qed.

Lemma find_none_filter {A : Type} (f : A -> bool) (l : list A) :
  find f l = None -> List.filter f l = [].
Proof.
  induction l as [|x l IH]; cbn; [reflexivity|].
  destruct (f x); [discriminate|]. exact IH.
Qed.

Lemma find_app_none {A : Type} (f : A -> bool) (l l' : list A) :
  find f l = None -> find f (l ++ l') = find f l'.
Proof.
  induction l as [|x l IH]; cbn; [reflexivity|].
  destruct (f x); [discriminate|]. exact IH.
Qed.

(** C6: [ensure_processed_label] reuses a label that bears the reserved
    name exactly (the first listed), creating nothing and leaving the
    account as it is; it requests a creation only when no listed label bears
    the name, and then of a label hidden from both lists; an account with at
    most one such label still has at most one afterwards; and a second call
    after a successful one returns the same identifier and creates
    nothing. *)
Theorem ensure_processed_label_idempotent
    (fresh_label_id : list Label -> string) (w : World) :
  let o := ensure_processed_label fresh_label_id w in
  (forall label,
     next_fault w = None ->
     find is_processed_label (gm_labels (gmail w)) = Some label ->
     label_name label = PROCESSED_LABEL_NAME /\
     out_res o = Ok (Some (label_id label)) /\
     gmail (out_world o) = gmail w /\
     List.filter is_label_creation (out_events o) = []) /\
  (forall ev,
     In ev (out_events o) -> is_label_creation ev = true ->
     find is_processed_label (gm_labels (gmail w)) = None /\
     ev = LabelsCreate PROCESSED_LABEL_NAME "labelHide" "hide") /\
  ((length (processed_labels (gmail w)) <= 1)%nat ->
   (length (processed_labels (gmail (out_world o))) <= 1)%nat) /\
  (forall id,
     out_res o = Ok (Some id) ->
     next_fault (out_world o) = None ->
     let o' := ensure_processed_label fresh_label_id (out_world o) in
     out_res o' = Ok (Some id) /\
     gmail (out_world o') = gmail (out_world o) /\
     List.filter is_label_creation (out_events o') = []).
Proof.
  intros o. subst o.
  pose proof (ensure_processed_label_run fresh_label_id w) as Hrun.
  cbn zeta in Hrun.
  split; [|split; [|split]].
  - intros label Hfault Hfind. rewrite Hrun, Hfault, Hfind.
    split; [|repeat split; reflexivity].
    apply find_some in Hfind as [_ Hname].
    now apply String.eqb_eq in Hname.
  - intros ev Hin Hcreate. rewrite Hrun in Hin.
    destruct (next_fault w) as [e|].
    { destruct e; cbn in Hin; intuition (subst; discriminate). }
    destruct (find is_processed_label (gm_labels (gmail w))) as [label|].
    { cbn in Hin; intuition (subst; discriminate). }
    split; [reflexivity|].
    destruct (next_fault _) as [e|].
    { destruct e; cbn in Hin; intuition (subst; try discriminate; reflexivity). }
    cbn in Hin; intuition (subst; try discriminate; reflexivity).
  - intros Hle. rewrite Hrun.
    destruct (next_fault w) as [e|].
    { destruct e; exact Hle. }
    destruct (find is_processed_label (gm_labels (gmail w))) as [label|] eqn:Hfind.
    { exact Hle. }
    destruct (next_fault _) as [e|].
    { destruct e; exact Hle. }
    unfold processed_labels. cbn [out_world gmail gm_labels].
    rewrite List.filter_app, (find_none_filter _ _ Hfind). cbn. lia.
  - intros id Hres Hfault'.
    pose proof (ensure_processed_label_run fresh_label_id
                  (out_world (ensure_processed_label fresh_label_id w))) as Hrun'.
    cbn zeta in Hrun'. cbn zeta. rewrite Hrun', Hfault'.
    clear Hrun' Hfault'. rewrite Hrun in *. clear Hrun.
    destruct (next_fault w) as [e|].
    { destruct e; discriminate. }
    destruct (find is_processed_label (gm_labels (gmail w))) as [label|] eqn:Hfind.
    { cbn [out_res out_world gmail] in *. rewrite Hfind.
      injection Hres as <-. repeat split; reflexivity. }
    destruct (next_fault _) as [e|].
    { destruct e; discriminate. }
    cbn [out_res out_world gmail gm_labels label_id] in *.
    rewrite (find_app_none _ _ _ Hfind). cbn.
    injection Hres as <-. repeat split; reflexivity.
Qed.

Lemma ensure_processed_label_idempotent_witness :
  let w := mkWorld (mkGmail [] [Scenario.m1]) [] in
  let o := ensure_processed_label Scenario.next_label_id w in
  let o' := ensure_processed_label Scenario.next_label_id (out_world o) in
  out_res o = Ok (Some "Label_1") /\
  (out_res o' = Ok (Some "Label_1") /\
   gmail (out_world o') = gmail (out_world o) /\
   List.filter is_label_creation (out_events o') = []) /\
  (length (processed_labels (gmail (out_world o))) <= 1)%nat.
Proof.
  pose proof (ensure_processed_label_idempotent Scenario.next_label_id
                (mkWorld (mkGmail [] [Scenario.m1]) [])) as (_ & _ & Hle & Hagain).
  split; [reflexivity|]. split.
  - apply (Hagain "Label_1"); reflexivity.
  - apply Hle. cbn. lia.
Defined.

(** The name is matched exactly: a label that differs in case is not
    reused. *)
Example other_case_is_not_reused :
  let w := mkWorld
             (mkGmail [mkLabel "Label_3" "ml_processed" "labelShow" "show"] [])
             [] in
  let o := ensure_processed_label Scenario.next_label_id w in
  out_res o = Ok (Some "Label_2") /\
  out_events o
  = [LabelsList; Log INFO (CreatingLabel "ML_PROCESSED");
     LabelsCreate "ML_PROCESSED" "labelHide" "hide"] /\
  length (processed_labels (gmail (out_world o))) = 1%nat.
Proof. vm_compute. repeat split; reflexivity. Qed.

(** ** Start-up *)

(** C7: when listing or creating the processed label fails,
    [ensure_processed_label] produces no label identifier ([None] on an
    [HttpError], the exception itself otherwise), and [poll_gmail] ends
    (it returns, or the exception leaves it) without entering the loop: no
    message is listed, fetched, classified or relabelled, and the messages
    are as they were. *)
Theorem label_unavailable_stops_before_polling
    (lower : string -> string) (matches : string -> list Label -> Email -> bool)
    (fresh_label_id : list Label -> string) (turns : nat) (creds : string)
    (classifier : SpamClassifier) (w : World) (e : exn) :
  label_setup_fails w e ->
  let r := ensure_processed_label fresh_label_id w in
  let o := poll_gmail lower matches fresh_label_id turns (Some creds)
             classifier w in
  (forall id, out_res r <> Ok (Some id)) /\
  out_res r = (if is_HttpError e then Ok None else Raise e) /\
  out_res o = (if is_HttpError e then Ok Returned else Raise e) /\
  List.filter is_polling_event (out_events o) = [] /\
  gm_messages (gmail (out_world o)) = gm_messages (gmail w).
Proof.
  intros Hfail r o. subst r o.
  unfold poll_gmail. rewrite bind_run.
  pose proof (ensure_processed_label_run fresh_label_id w) as Hrun.
  cbn zeta in Hrun. rewrite Hrun. clear Hrun.
  destruct Hfail as [Hfault | (Hfault & Hfind & Hfault')].
  - rewrite Hfault. destruct e; cbn; repeat split; congruence.
  - rewrite Hfault, Hfind, Hfault'. destruct e; cbn; repeat split; congruence.
Qed.

Lemma label_unavailable_stops_before_polling_witness :
  let w := mkWorld (mkGmail [] [Scenario.m1; Scenario.m2])
                   [None; Some HttpError] in
  let o := poll_gmail Scenario.ascii_lower Scenario.unread_unprocessed
             Scenario.next_label_id 5 (Some "token") Scenario.sure w in
  (forall id,
     out_res (ensure_processed_label Scenario.next_label_id w) <> Ok (Some id)) /\
  out_res (ensure_processed_label Scenario.next_label_id w) = Ok None /\
  out_res o = Ok Returned /\
  List.filter is_polling_event (out_events o) = [] /\
  gm_messages (gmail (out_world o)) = [Scenario.m1; Scenario.m2].
Proof.
  apply (label_unavailable_stops_before_polling Scenario.ascii_lower
           Scenario.unread_unprocessed Scenario.next_label_id 5 "token"
           Scenario.sure
           (mkWorld (mkGmail [] [Scenario.m1; Scenario.m2]) [None; Some HttpError])
           HttpError).
  right. repeat split; reflexivity.
Defined.

(** ** Containment of recoverable failures *)

Lemma turn_events_app (evs evs' : list event) :
  turn_events (evs ++ evs') = turn_events evs ++ turn_events evs'.
Proof. apply List.filter_app. Qed.

Lemma contained_ret {A : Type} (a : A) : contained (mret a).
Proof.
  intros w Hw. split; [discriminate|]. split; [exact Hw | reflexivity].
Qed.

Lemma contained_raise {A : Type} (e : exn) :
  is_Exception e = true -> contained (@raise A e).
Proof.
  intros He w Hw. split; [|split; [exact Hw | reflexivity]].
  cbn. intros e' [= <-]. exact He.
Qed.

Lemma contained_emit (ev : event) :
  is_turn_event ev = false -> contained (emit ev).
Proof.
  intros Hev w Hw. split; [discriminate|]. split; [exact Hw|].
  cbn. unfold turn_events. cbn. now rewrite Hev.
Qed.

Lemma contained_bind {A B : Type} (m : M A) (f : A -> M B) :
  contained m -> (forall a, contained (f a)) -> contained (m ≫= f).
Proof.
  intros Hm Hf w Hw. rewrite bind_run.
  destruct (Hm w Hw) as (Hres & Hrec & Hturn).
  destruct (out_res (m w)) as [a|e] eqn:E.
  - destruct (Hf a _ Hrec) as (Hres' & Hrec' & Hturn').
    cbn [out_res out_world out_events].
    rewrite turn_events_app, Hturn, Hturn'.
    split; [assumption|]. split; [assumption | reflexivity].
  - cbn [out_res out_world out_events].
    split; [|split; assumption].
    intros e' [= <-]. now apply Hres.
Qed.

Lemma contained_try_except {A : Type} (body : M A) (caught : exn -> bool)
    (handler : exn -> M A) :
  contained body -> (forall e, contained (handler e)) ->
  contained (try_except body caught handler).
Proof.
  intros Hb Hh w Hw. unfold try_except.
  destruct (Hb w Hw) as (Hres & Hrec & Hturn).
  destruct (out_res (body w)) as [a|e] eqn:E.
  - rewrite E. split; [discriminate|]. split; assumption.
  - destruct (caught e).
    + destruct (Hh e _ Hrec) as (Hres' & Hrec' & Hturn').
      cbn [out_res out_world out_events].
      rewrite turn_events_app, Hturn, Hturn'.
      split; [assumption|]. split; [assumption | reflexivity].
    + rewrite E. split; [|split; assumption].
      intros e' [= <-]. now apply Hres.
Qed.

Lemma recoverable_advance (w : World) (g : Gmail) :
  recoverable w = true -> recoverable (mkWorld g (advance w)) = true.
Proof.
  unfold recoverable, advance. cbn [script].
  destruct (script w) as [|f fs]; cbn; [easy|].
  intros H. apply andb_true_iff in H as [_ H]. exact H.
Qed.

Lemma recoverable_next_fault (w : World) (e : exn) :
  recoverable w = true -> next_fault w = Some e -> is_Exception e = true.
Proof.
  unfold recoverable, next_fault.
  destruct (script w) as [|[e'|] fs]; cbn; try discriminate.
  intros H [= <-]. apply andb_true_iff in H as [H _]. exact H.
Qed.

(** What a request does from a world with recoverable faults, whatever
    the request is. *)
Lemma execute_recoverable {A : Type} (request : event)
    (serve : Gmail -> option (A * Gmail)) (w : World) :
  recoverable w = true ->
  (forall e, out_res (execute request serve w) = Raise e ->
             is_Exception e = true) /\
  recoverable (out_world (execute request serve w)) = true /\
  out_events (execute request serve w) = [request].
Proof.
  intros Hw. rewrite execute_run.
  destruct (next_fault w) as [e|] eqn:Hfault.
  - split; [|split; [now apply recoverable_advance | reflexivity]].
    intros e' [= <-]. now apply (recoverable_next_fault w).
  - destruct (serve (gmail w)) as [[a g']|].
    + split; [discriminate|].
      split; [now apply recoverable_advance | reflexivity].
    + split; [|split; [now apply recoverable_advance | reflexivity]].
      now intros e' [= <-].
Qed.

Lemma contained_execute {A : Type} (request : event)
    (serve : Gmail -> option (A * Gmail)) :
  is_turn_event request = false -> contained (execute request serve).
Proof.
  intros Hreq w Hw.
  destruct (execute_recoverable request serve w Hw) as (Hres & Hrec & Hev).
  split; [assumption|]. split; [assumption|].
  rewrite Hev. unfold turn_events. cbn. now rewrite Hreq.
Qed.

Lemma contained_for_each {A : Type} (xs : list A) (body : A -> M unit) :
  (forall x, contained (body x)) -> contained (for_each xs body).
Proof.
  intros Hbody. induction xs as [|x xs IH]; cbn [for_each].
  - apply contained_ret.
  - apply contained_bind; [apply Hbody | intros _; exact IH].
Qed.

Lemma contained_modify_message_labels (id : string)
    (add remove : list string) :
  contained (modify_message_labels id add remove).
Proof.
  apply contained_try_except.
  - now apply contained_execute.
  - intros e. now apply contained_emit.
Qed.

Lemma contained_get_spam_probability (classifier : SpamClassifier)
    (text : string) :
  model_recoverable classifier ->
  contained (get_spam_probability classifier text).
Proof.
  intros Hmodel. apply contained_bind.
  - apply contained_try_except.
    + apply contained_bind; [now apply contained_emit|]. intros _.
      destruct (run_model classifier [text]) as [ps|e] eqn:E.
      * apply contained_ret.
      * apply contained_raise. now apply (Hmodel [text]).
    + intros e. apply contained_bind; [now apply contained_emit|].
      intros _. apply contained_ret.
  - intros [|p ps]; [now apply contained_raise | apply contained_ret].
Qed.

Lemma contained_process_message (lower : string -> string)
    (classifier : SpamClassifier) (processed_label_id id : string) :
  model_recoverable classifier ->
  contained (process_message lower classifier processed_label_id id).
Proof.
  intros Hmodel. apply contained_bind.
  - now apply contained_execute.
  - intros email. cbn zeta.
    destruct (is_trusted lower (sender_of email)).
    + apply contained_bind; [now apply contained_emit|].
      intros _. apply contained_modify_message_labels.
    + apply contained_bind; [now apply contained_get_spam_probability|].
      intros p. destruct (SPAM_CONFIDENCE_THRESHOLD <? p)%float;
        (apply contained_bind; [now apply contained_emit|]);
        intros _; apply contained_modify_message_labels.
Qed.

(** The [try] block of a turn: the listing request comes first, nothing
    else in it lists or sleeps, and what it raises can be caught. *)
Lemma poll_body_recoverable (lower : string -> string)
    (matches : string -> list Label -> Email -> bool)
    (classifier : SpamClassifier) (processed_label_id : string) (w : World) :
  recoverable w = true -> model_recoverable classifier ->
  let body :=
    messages ← users_messages_list matches query;
    match messages with
    | [] => logging INFO NoNewMessages
    | _ => logging INFO (FoundMessages (length messages))
    end ;;
    for_each messages (process_message lower classifier processed_label_id) in
  (forall e, out_res (body w) = Raise e -> is_Exception e = true) /\
  recoverable (out_world (body w)) = true /\
  exists evs, out_events (body w) = MessagesList query :: evs /\
              turn_events evs = [].
Proof.
  intros Hw Hmodel body. subst body. rewrite bind_run.
  unfold users_messages_list.
  destruct (execute_recoverable (MessagesList query)
              (fun g => Some (listing matches query g, g)) w Hw)
    as (Hres & Hrec & Hev).
  rewrite Hev.
  destruct (out_res (execute _ _ w)) as [messages|e] eqn:E.
  - assert (Hrest : contained
              (match messages with
               | [] => logging INFO NoNewMessages
               | _ => logging INFO (FoundMessages (length messages))
               end ;;
               for_each messages
                 (process_message lower classifier processed_label_id))).
    { apply contained_bind.
      - destruct messages; now apply contained_emit.
      - intros _. apply contained_for_each. intros id.
        now apply contained_process_message. }
    destruct (Hrest _ Hrec) as (Hres' & Hrec' & Hturn').
    cbn [out_res out_world out_events].
    split; [assumption|]. split; [assumption|].
    eexists. split; [reflexivity | exact Hturn'].
  - cbn [out_res out_world out_events].
    split; [|split; [assumption|]].
    + intros e' [= <-]. now apply Hres.
    + exists []. split; reflexivity.
Qed.

(** One turn of the loop from a world with recoverable faults: it ends
    normally, with the sleep as its last event. *)
Lemma poll_cycle_recovers (lower : string -> string)
    (matches : string -> list Label -> Email -> bool)
    (classifier : SpamClassifier) (processed_label_id : string) (w : World) :
  recoverable w = true -> model_recoverable classifier ->
  let o := poll_cycle lower matches classifier processed_label_id w in
  out_res o = Ok tt /\
  recoverable (out_world o) = true /\
  exists evs, out_events o
              = MessagesList query :: evs ++ [Sleep POLL_INTERVAL_SECONDS] /\
              turn_events evs = [].
Proof.
  intros Hw Hmodel o. subst o.
  destruct (poll_body_recoverable lower matches classifier processed_label_id
              w Hw Hmodel) as (Hres & Hrec & evs & Hev & Hturn).
  cbn zeta in Hres, Hrec, Hev.
  unfold poll_cycle. rewrite bind_run. unfold try_except.
  destruct (out_res ((users_messages_list matches query ≫= _) w))
    as [[]|e] eqn:E.
  - rewrite E. cbn [out_res out_world out_events emit].
    split; [reflexivity|]. split; [assumption|].
    exists evs. rewrite Hev. split; [reflexivity | assumption].
  - rewrite (Hres e eq_refl).
    destruct (is_HttpError e); cbn [logging emit out_res out_world out_events].
    + split; [reflexivity|]. split; [assumption|].
      exists (evs ++ [Log ERROR (ApiError e)]). rewrite Hev.
      split; [now rewrite <- !app_assoc|].
      now rewrite turn_events_app, Hturn.
    + split; [reflexivity|]. split; [assumption|].
      exists (evs ++ [Log ERROR (UnexpectedError e)]). rewrite Hev.
      split; [now rewrite <- !app_assoc|].
      now rewrite turn_events_app, Hturn.
Qed.

(** A turn whose listing request fails. *)
Lemma poll_cycle_listing_fails (lower : string -> string)
    (matches : string -> list Label -> Email -> bool)
    (classifier : SpamClassifier) (processed_label_id : string)
    (w : World) (e : exn) :
  next_fault w = Some e -> is_Exception e = true ->
  poll_cycle lower matches classifier processed_label_id w =
  mkOut (Ok tt) (mkWorld (gmail w) (advance w))
        [MessagesList query;
         Log ERROR (if is_HttpError e then ApiError e else UnexpectedError e);
         Sleep POLL_INTERVAL_SECONDS].
Proof.
  intros Hfault He.
  unfold poll_cycle, try_except, users_messages_list.
  rewrite !bind_run, execute_run, Hfault.
  cbn [out_res out_world out_events]. rewrite He.
  destruct e; try discriminate; reflexivity.
Qed.

(** ** The loop *)

(** C8: once in the loop, and as long as the failures are ones that
    [except Exception] catches, the loop is never left: after any number of
    turns [poll_gmail] is still polling, every turn having begun with its
    listing request and ended with the sleep of the poll interval; and a
    turn whose listing request fails is logged, sleeps, and changes nothing
    at the provider. *)
Theorem poll_loop_never_stops (lower : string -> string)
    (matches : string -> list Label -> Email -> bool)
    (classifier : SpamClassifier) (processed_label_id : string)
    (turns : nat) (w : World) :
  recoverable w = true -> model_recoverable classifier ->
  let o := poll_loop lower matches turns classifier processed_label_id w in
  out_res o = Ok StillPolling /\
  recoverable (out_world o) = true /\
  turn_events (out_events o)
  = concat (repeat [MessagesList query; Sleep POLL_INTERVAL_SECONDS] turns) /\
  (forall e, next_fault w = Some e ->
     poll_cycle lower matches classifier processed_label_id w =
     mkOut (Ok tt) (mkWorld (gmail w) (advance w))
           [MessagesList query;
            Log ERROR (if is_HttpError e then ApiError e else UnexpectedError e);
            Sleep POLL_INTERVAL_SECONDS]).
Proof.
  intros Hw Hmodel o. subst o.
  split; [|split; [|split]].
  4: { intros e Hfault. apply poll_cycle_listing_fails; [assumption|].
       now apply (recoverable_next_fault w). }
  all: revert w Hw; induction turns as [|n IH]; intros w Hw;
    cbn [poll_loop]; try reflexivity; try assumption.
  all: rewrite bind_run;
    destruct (poll_cycle_recovers lower matches classifier processed_label_id
                w Hw Hmodel) as (Hres & Hrec & evs & Hev & Hturn);
    cbn zeta in Hres, Hrec, Hev; rewrite Hres;
    cbn [out_res out_world out_events].
  - now apply IH.
  - now apply IH.
  - rewrite turn_events_app, (IH _ Hrec), Hev.
    change (MessagesList query :: evs ++ [Sleep POLL_INTERVAL_SECONDS])
      with ([MessagesList query] ++ evs ++ [Sleep POLL_INTERVAL_SECONDS]).
    rewrite !turn_events_app, Hturn. reflexivity.
Qed.

Lemma poll_loop_never_stops_witness :
  let w := mkWorld Scenario.inbox [Some HttpError; Some OtherException] in
  let o := poll_loop Scenario.ascii_lower Scenario.unread_unprocessed 3
             Scenario.sure "Label_7" w in
  out_res o = Ok StillPolling /\
  recoverable (out_world o) = true /\
  turn_events (out_events o)
  = concat (repeat [MessagesList query; Sleep POLL_INTERVAL_SECONDS] 3) /\
  (forall e, next_fault w = Some e ->
     poll_cycle Scenario.ascii_lower Scenario.unread_unprocessed
       Scenario.sure "Label_7" w =
     mkOut (Ok tt) (mkWorld (gmail w) (advance w))
           [MessagesList query;
            Log ERROR (if is_HttpError e then ApiError e else UnexpectedError e);
            Sleep POLL_INTERVAL_SECONDS]).
Proof.
  apply (poll_loop_never_stops Scenario.ascii_lower Scenario.unread_unprocessed
           Scenario.sure "Label_7" 3
           (mkWorld Scenario.inbox [Some HttpError; Some OtherException])).
  - reflexivity.
  - intros texts e H. discriminate H.
Defined.

(** What the loop does not survive is an exception outside [Exception]:
    the hypothesis on the faults is needed. *)
Example interrupt_leaves_the_loop :
  out_res (poll_loop Scenario.ascii_lower Scenario.unread_unprocessed 3
             Scenario.sure "Label_7"
             (mkWorld Scenario.inbox [Some HttpError; Some NonException]))
  = Raise NonException.
Proof. vm_compute. reflexivity. Qed.

(** Two turns, as they show on the log: a failed listing, then a batch. *)
Example three_turns :
  out_events (poll_loop Scenario.ascii_lower Scenario.unread_unprocessed 2
                Scenario.unsure "Label_7"
                (mkWorld (mkGmail [Scenario.processed] [Scenario.m3])
                         [Some HttpError]))
  = [MessagesList "is:unread -label:ML_PROCESSED";
     Log ERROR (ApiError HttpError);
     Sleep 60;
     MessagesList "is:unread -label:ML_PROCESSED";
     Log INFO (FoundMessages 1);
     MessagesGet "m3";
     ModelRun ["Subject: Lunch From: friend@example.org Body: Still on for lunch tomorrow?"];
     Log INFO (NOT_SPAM 0.40%float "Lunch");
     MessagesModify "m3" ["Label_7"] [];
     Sleep 60].
Proof. vm_compute. reflexivity. Qed.

(** ** Failures inside a batch *)

Lemma modify_failures_app (evs evs' : list event) :
  modify_failures (evs ++ evs') = modify_failures evs ++ modify_failures evs'.
Proof. apply omap_app. Qed.

(** A label request reported as failed on the log has returned normally
    and has left the provider's state as it was. *)
Lemma modify_message_labels_failure (id : string) (add remove : list string)
    (w : World) (f : string * exn) :
  In f (modify_failures (out_events (modify_message_labels id add remove w))) ->
  out_res (modify_message_labels id add remove w) = Ok tt /\
  gmail (out_world (modify_message_labels id add remove w)) = gmail w /\
  script (out_world (modify_message_labels id add remove w)) = advance w.
Proof.
  rewrite modify_message_labels_run.
  destruct (next_fault w) as [e|].
  - destruct e; cbn; intros H; [repeat split; reflexivity | destruct H ..].
  - destruct (find (has_id id) (gm_messages (gmail w))); cbn; intros H.
    + destruct H.
    + repeat split; reflexivity.
Qed.

(** [modify_message_labels] never lets an [HttpError] through. *)
Lemma modify_message_labels_catches (id : string) (add remove : list string)
    (w : World) :
  out_res (modify_message_labels id add remove w) <> Raise HttpError.
Proof.
  rewrite modify_message_labels_run.
  destruct (next_fault w) as [e|].
  - destruct e; cbn; discriminate.
  - destruct (find (has_id id) (gm_messages (gmail w))); cbn; discriminate.
Qed.

Lemma get_spam_probability_no_failure (self : SpamClassifier) (text : string)
    (w : World) :
  modify_failures (out_events (get_spam_probability self text w)) = [].
Proof.
  rewrite get_spam_probability_run.
  destruct (run_model self [text]) as [[|p ps]|e]; try reflexivity.
  destruct (is_Exception e); reflexivity.
Qed.

(** The shape of every run of the loop body: it raises before any label
    request, the provider untouched; or it ends with the one label request
    it makes, for the message it fetched. *)
Lemma process_message_cases (lower : string -> string)
    (classifier : SpamClassifier) (processed_label_id id : string)
    (w : World) :
  let w1 := mkWorld (gmail w) (advance w) in
  (exists e evs,
     process_message lower classifier processed_label_id id w
     = mkOut (Raise e) w1 evs /\
     modify_failures evs = []) \/
  (exists add remove evs,
     let o := modify_message_labels id add remove w1 in
     process_message lower classifier processed_label_id id w
     = mkOut (out_res o) (out_world o) (evs ++ out_events o) /\
     modify_failures evs = []).
Proof.
  intros w1.
  destruct (out_res (users_messages_get id w)) as [email|e] eqn:Hget.
  - apply users_messages_get_ok in Hget as [Hfault Hfind].
    pose proof (find_has_id _ _ _ Hfind) as Hid.
    destruct (is_trusted lower (sender_of email)) eqn:Htrust.
    + right. exists [processed_label_id], [],
        [MessagesGet id; Log INFO (TRUSTED (subject_of email) (sender_of email))].
      rewrite (process_message_trusted _ _ _ _ _ _ Hfault Hfind Htrust).
      rewrite Hid. split; reflexivity.
    + rewrite (process_message_untrusted _ _ _ _ _ _ Hfault Hfind Htrust).
      cbn zeta. fold w1.
      set (c := get_spam_probability classifier _ w1).
      pose proof (get_spam_probability_no_failure classifier
                    (text_to_classify (subject_of email) (sender_of email)
                                      (email_snippet email)) w1) as Hc.
      fold c in Hc. rewrite Hid.
      destruct (out_res c) as [p|e].
      * right. destruct (SPAM_CONFIDENCE_THRESHOLD <? p)%float.
        -- exists ["SPAM"], ["INBOX"],
             (MessagesGet id
              :: out_events c ++ [Log WARNING (SPAM p (subject_of email))]).
           split.
           ++ cbn zeta. f_equal. cbn. now rewrite <- app_assoc.
           ++ change (?a :: ?l ++ ?l') with ([a] ++ l ++ l').
              now rewrite !modify_failures_app, Hc.
        -- exists [processed_label_id], [],
             (MessagesGet id
              :: out_events c ++ [Log INFO (NOT_SPAM p (subject_of email))]).
           split.
           ++ cbn zeta. f_equal. cbn. now rewrite <- app_assoc.
           ++ change (?a :: ?l ++ ?l') with ([a] ++ l ++ l').
              now rewrite !modify_failures_app, Hc.
      * left. exists e, (MessagesGet id :: out_events c).
        split; [reflexivity|].
        change (?a :: ?l) with ([a] ++ l).
        now rewrite modify_failures_app, Hc.
  - left. exists e, [MessagesGet id].
    rewrite (process_message_fetch_raises _ _ _ _ _ _ Hget).
    split; reflexivity.
Qed.

(** A run of the loop body that reports a failed label request has ended
    normally and has changed nothing at the provider. *)
Lemma process_message_failure (lower : string -> string)
    (classifier : SpamClassifier) (processed_label_id id : string)
    (w : World) (f : string * exn) :
  let o := process_message lower classifier processed_label_id id w in
  In f (modify_failures (out_events o)) ->
  out_res o = Ok tt /\ gmail (out_world o) = gmail w.
Proof.
  intros o Hin. subst o.
  destruct (process_message_cases lower classifier processed_label_id id w)
    as [(e & evs & Hrun & Hno) | (add & remove & evs & Hrun & Hno)];
    cbn zeta in Hrun; rewrite Hrun in *; cbn [out_res out_world out_events] in *.
  - rewrite Hno in Hin. destruct Hin.
  - rewrite modify_failures_app, Hno in Hin. cbn [app] in Hin.
    apply modify_message_labels_failure in Hin as (Hres & Hg & _).
    split; assumption.
Qed.

Lemma gmail_eta (g : Gmail) (f : Email -> Email) :
  (forall e, f e = e) ->
  g = mkGmail (gm_labels g) (map f (gm_messages g)).
Proof.
  intros Hf. destruct g as [labels msgs]. cbn. f_equal.
  induction msgs as [|e msgs IH]; cbn; [reflexivity|].
  now rewrite Hf, <- IH.
Qed.

(** A label request only touches the message it names. *)
Lemma modify_message_labels_gmail (id : string) (add remove : list string)
    (w : World) :
  exists f, (forall e, email_id e <> id -> f e = e) /\
            gmail (out_world (modify_message_labels id add remove w))
            = mkGmail (gm_labels (gmail w)) (map f (gm_messages (gmail w))).
Proof.
  rewrite modify_message_labels_run.
  assert (Hsame : exists f, (forall e, email_id e <> id -> f e = e) /\
                    gmail w = mkGmail (gm_labels (gmail w))
                                      (map f (gm_messages (gmail w)))).
  { exists (fun e => e). split; [reflexivity | now apply gmail_eta]. }
  destruct (next_fault w) as [x|].
  - destruct (is_HttpError x); exact Hsame.
  - destruct (find (has_id id) (gm_messages (gmail w))) as [found|];
      [|exact Hsame].
    exists (relabel_message id add remove). split; [|reflexivity].
    intros e Hne. unfold relabel_message, has_id.
    destruct (String.eqb_spec (email_id e) id); [contradiction | reflexivity].
Qed.

Lemma process_message_gmail (lower : string -> string)
    (classifier : SpamClassifier) (processed_label_id id : string)
    (w : World) :
  exists f, (forall e, email_id e <> id -> f e = e) /\
            gmail (out_world
                     (process_message lower classifier processed_label_id id w))
            = mkGmail (gm_labels (gmail w)) (map f (gm_messages (gmail w))).
Proof.
  destruct (process_message_cases lower classifier processed_label_id id w)
    as [(e & evs & Hrun & _) | (add & remove & evs & Hrun & _)];
    cbn zeta in Hrun; rewrite Hrun; cbn [out_world].
  - exists (fun e => e). split; [reflexivity | now apply gmail_eta].
  - apply (modify_message_labels_gmail id add remove
             (mkWorld (gmail w) (advance w))).
Qed.

Lemma for_each_gmail (lower : string -> string)
    (classifier : SpamClassifier) (processed_label_id : string)
    (ids : list string) (w : World) :
  exists f, (forall e, ~ In (email_id e) ids -> f e = e) /\
            gmail (out_world
                     (for_each ids
                        (process_message lower classifier processed_label_id) w))
            = mkGmail (gm_labels (gmail w)) (map f (gm_messages (gmail w))).
Proof.
  revert w. induction ids as [|id ids IH]; intros w; cbn [for_each].
  - exists (fun e => e). split; [reflexivity | now apply gmail_eta].
  - rewrite bind_run.
    destruct (process_message_gmail lower classifier processed_label_id id w)
      as (f & Hf & Hg).
    destruct (out_res (process_message lower classifier processed_label_id id w))
      as [[]|x].
    + cbn [out_world].
      destruct (IH (out_world
                      (process_message lower classifier processed_label_id id w)))
        as (f' & Hf' & Hg').
      exists (fun e => f' (f e)). split.
      * intros e Hnot. rewrite Hf by (intros <-; apply Hnot; now left).
        apply Hf'. intros Hin. apply Hnot. now right.
      * rewrite Hg', Hg. cbn [gm_labels gm_messages].
        now rewrite List.map_map.
    + cbn [out_world]. exists f. split; [|exact Hg].
      intros e Hnot. apply Hf. intros <-. apply Hnot. now left.
Qed.

(** A message the query matches is still matched after changes that
    leave it alone. *)
Lemma listing_kept (matches : string -> list Label -> Email -> bool)
    (q id : string) (g : Gmail) (f : Email -> Email) :
  (forall e, email_id e = id -> f e = e) ->
  In id (listing matches q g) ->
  In id (listing matches q (mkGmail (gm_labels g) (map f (gm_messages g)))).
Proof.
  intros Hf Hin. unfold listing in *. cbn [gm_labels gm_messages].
  apply List.in_map_iff in Hin as (e & Hid & He).
  apply List.filter_In in He as [He Hm].
  apply List.in_map_iff. exists e. split; [exact Hid|].
  apply List.filter_In. split; [|exact Hm].
  apply List.in_map_iff. exists e. split; [now apply Hf | exact He].
Qed.

(** The loop leaves at the first message whose processing raises. *)
Lemma for_each_stops {A : Type} (body : A -> M unit) (pre post : list A)
    (x : A) (w : World) (e : exn) :
  out_res (for_each pre body w) = Ok tt ->
  out_res (body x (out_world (for_each pre body w))) = Raise e ->
  for_each (pre ++ x :: post) body w =
  mkOut (Raise e)
        (out_world (body x (out_world (for_each pre body w))))
        (out_events (for_each pre body w)
         ++ out_events (body x (out_world (for_each pre body w)))).
Proof.
  revert w. induction pre as [|y pre IH]; intros w Hpre Hx.
  - cbn [app for_each] in *. rewrite bind_run.
    cbn [mret M_ret out_world out_events] in *. now rewrite Hx.
  - cbn [app for_each] in *. rewrite bind_run in *.
    destruct (out_res (body y w)) as [[]|e'] eqn:Ey; [|discriminate].
    cbn [out_res out_world out_events] in *.
    rewrite (IH _ Hpre Hx). rewrite !bind_run, Ey.
    cbn [out_res out_world out_events].
    now rewrite app_assoc.
Qed.

(** C10: [modify_message_labels] never lets the provider's [HttpError]
    reach its caller: it logs it and returns. When the label request of a
    message fails in this way, the loop body ends normally with the
    provider's state as it was, the loop goes on with the rest of the batch
    exactly as it would from there, and at the end of the batch the message
    is still matched by the query, so that the next listing returns it
    again. *)
Theorem failed_label_mutation_is_contained (lower : string -> string)
    (matches : string -> list Label -> Email -> bool)
    (classifier : SpamClassifier) (processed_label_id id : string)
    (rest : list string) (w : World) :
  let body := process_message lower classifier processed_label_id in
  In (id, HttpError) (modify_failures (out_events (body id w))) ->
  In id (listing matches query (gmail w)) ->
  ~ In id rest ->
  let o1 := body id w in
  let o_rest := for_each rest body (out_world o1) in
  let o := for_each (id :: rest) body w in
  (forall mid add remove w',
     out_res (modify_message_labels mid add remove w') <> Raise HttpError) /\
  (forall mid add remove w',
     next_fault w' = Some HttpError ->
     modify_message_labels mid add remove w' =
     mkOut (Ok tt) (mkWorld (gmail w') (advance w'))
           [MessagesModify mid add remove;
            Log ERROR (FailedToModifyLabels mid HttpError)]) /\
  out_res o1 = Ok tt /\
  gmail (out_world o1) = gmail w /\
  o = mkOut (out_res o_rest) (out_world o_rest)
            (out_events o1 ++ out_events o_rest) /\
  In id (listing matches query (gmail (out_world o))) /\
  (forall w', gmail w' = gmail (out_world o) -> next_fault w' = None ->
     exists ids, out_res (users_messages_list matches query w') = Ok ids /\
                 In id ids).
Proof.
  intros body Hfail Hlisted Hnot o1 o_rest o.
  destruct (process_message_failure lower classifier processed_label_id id w
              _ Hfail) as [Hres Hg].
  fold body in Hres, Hg. fold o1 in Hres, Hg.
  assert (Ho : o = mkOut (out_res o_rest) (out_world o_rest)
                         (out_events o1 ++ out_events o_rest)).
  { subst o. cbn [for_each]. rewrite bind_run. fold o1. now rewrite Hres. }
  split; [intros; apply modify_message_labels_catches|].
  split.
  { intros mid add remove w' Hfault.
    now rewrite modify_message_labels_run, Hfault. }
  split; [exact Hres|]. split; [exact Hg|]. split; [exact Ho|].
  assert (Hstill : In id (listing matches query (gmail (out_world o)))).
  { rewrite Ho. cbn [out_world]. subst o_rest body.
    destruct (for_each_gmail lower classifier processed_label_id rest
                (out_world o1)) as (f & Hf & Hgr).
    rewrite Hgr, Hg. apply listing_kept; [|exact Hlisted].
    intros e He. apply Hf. now rewrite He. }
  split; [exact Hstill|].
  intros w' Hw' Hfault'. exists (listing matches query (gmail w')).
  unfold users_messages_list. rewrite execute_run, Hfault'.
  split; [reflexivity | now rewrite Hw'].
Qed.

Lemma failed_label_mutation_is_contained_witness :
  let body := process_message Scenario.ascii_lower Scenario.sure "Label_7" in
  let w := mkWorld Scenario.inbox [None; Some HttpError] in
  out_res (body "m1" w) = Ok tt /\
  gmail (out_world (body "m1" w)) = Scenario.inbox /\
  mutations (out_events (for_each ["m1"; "m2"; "m3"] body w))
  = [("m1", ["Label_7"], []); ("m2", ["SPAM"], ["INBOX"]);
     ("m3", ["SPAM"], ["INBOX"])] /\
  In "m1" (listing Scenario.unread_unprocessed query
             (gmail (out_world (for_each ["m1"; "m2"; "m3"] body w)))).
Proof.
  pose proof (failed_label_mutation_is_contained Scenario.ascii_lower
                Scenario.unread_unprocessed Scenario.sure "Label_7" "m1"
                ["m2"; "m3"] (mkWorld Scenario.inbox [None; Some HttpError]))
    as H.
  cbn zeta in H.
  destruct H as (_ & _ & Hres & Hg & _ & Hin & _).
  - vm_compute. left. reflexivity.
  - vm_compute. left. reflexivity.
  - intros [H | [H | []]]; discriminate H.
  - split; [exact Hres|]. split; [exact Hg|].
    split; [vm_compute; reflexivity | exact Hin].
Defined.

(** ** Per-message isolation *)

(** A batch of three whose second fetch raises: the third message is
    never fetched in that turn. *)
Lemma fetch_failure_ends_the_batch :
  let w := mkWorld Scenario.inbox [None; None; None; Some HttpError] in
  let o := poll_cycle Scenario.ascii_lower Scenario.unread_unprocessed
             Scenario.sure "Label_7" w in
  listing Scenario.unread_unprocessed query (gmail w) = ["m1"; "m2"; "m3"] /\
  out_events o
  = [MessagesList "is:unread -label:ML_PROCESSED";
     Log INFO (FoundMessages 3);
     MessagesGet "m1";
     Log INFO (TRUSTED "Build failed" "Alerts <alerts@GitHub.com>");
     MessagesModify "m1" ["Label_7"] [];
     MessagesGet "m2";
     Log ERROR (ApiError HttpError);
     Sleep 60] /\
  find (has_id "m3") (gm_messages (gmail (out_world o))) = Some Scenario.m3.
Proof. vm_compute. repeat split; reflexivity. Qed.

Lemma per_message_isolation_fails : ~ per_message_isolation.
Proof.
  intros H.
  specialize (H Scenario.ascii_lower Scenario.unread_unprocessed Scenario.sure
                "Label_7"
                (mkWorld Scenario.inbox [None; None; None; Some HttpError])).
  assert (Hin : In "m3" ["m1"; "m2"]).
  { apply H.
    - reflexivity.
    - intros texts e He. discriminate He.
    - reflexivity.
    - vm_compute. right. right. left. reflexivity. }
  destruct Hin as [Hin | [Hin | []]]; discriminate Hin.
Qed.

(** An exception under [Exception] that leaves the loop body is caught
    once, for the turn: the messages before it have been processed, the
    failure is logged, nothing is done in that turn for the messages after
    it, and the turn ends normally with its sleep. *)
Lemma failure_ends_the_turn (lower : string -> string)
    (matches : string -> list Label -> Email -> bool)
    (classifier : SpamClassifier) (processed_label_id id : string)
    (pre post : list string) (w : World) (e : exn) :
  let body := process_message lower classifier processed_label_id in
  let o_pre := for_each pre body (mkWorld (gmail w) (advance w)) in
  let o_id := body id (out_world o_pre) in
  next_fault w = None ->
  listing matches query (gmail w) = pre ++ id :: post ->
  out_res o_pre = Ok tt ->
  out_res o_id = Raise e ->
  is_Exception e = true ->
  let o := poll_cycle lower matches classifier processed_label_id w in
  out_res o = Ok tt /\
  out_world o = out_world o_id /\
  out_events o
  = MessagesList query
    :: Log INFO (FoundMessages (length (pre ++ id :: post)))
    :: out_events o_pre ++ out_events o_id
    ++ [Log ERROR (if is_HttpError e then ApiError e else UnexpectedError e);
        Sleep POLL_INTERVAL_SECONDS] /\
  (forall mid add remove w',
     out_res (modify_message_labels mid add remove w') <> Raise HttpError).
Proof.
  intros body o_pre o_id Hfault Hlist Hpre Hid He o.
  assert (Hrun : o = mkOut (Ok tt) (out_world o_id)
            (MessagesList query
             :: Log INFO (FoundMessages (length (pre ++ id :: post)))
             :: out_events o_pre ++ out_events o_id
             ++ [Log ERROR (if is_HttpError e then ApiError e
                            else UnexpectedError e);
                 Sleep POLL_INTERVAL_SECONDS])).
  { set (w0 := mkWorld (gmail w) (advance w)) in *.
    assert (Hinner :
              (match pre ++ id :: post with
               | [] => logging INFO NoNewMessages
               | _ :: _ =>
                   logging INFO (FoundMessages (length (pre ++ id :: post)))
               end ;;
               for_each (pre ++ id :: post) body) w0
              = mkOut (Raise e) (out_world o_id)
                  (Log INFO (FoundMessages (length (pre ++ id :: post)))
                   :: out_events o_pre ++ out_events o_id)).
    { rewrite bind_run.
      replace (match pre ++ id :: post with
               | [] => logging INFO NoNewMessages
               | _ :: _ =>
                   logging INFO (FoundMessages (length (pre ++ id :: post)))
               end)
        with (logging INFO (FoundMessages (length (pre ++ id :: post))))
        by (destruct pre; reflexivity).
      cbn [logging emit out_res out_world out_events].
      rewrite (for_each_stops body pre post id w0 e Hpre Hid).
      reflexivity. }
    subst o. unfold poll_cycle. rewrite bind_run. unfold try_except.
    rewrite bind_run. unfold users_messages_list.
    rewrite execute_run, Hfault.
    cbn [out_res out_world out_events]. fold w0. rewrite Hlist.
    fold body. rewrite Hinner.
    cbn [out_res out_world out_events]. rewrite He.
    destruct (is_HttpError e); cbn [logging emit out_res out_world out_events];
      f_equal; cbn [app]; now rewrite <- !app_assoc. }
  rewrite Hrun. cbn [out_res out_world out_events].
  repeat split. intros. apply modify_message_labels_catches.
Qed.

Lemma label_request_escapes_iff (id : string) (add remove : list string)
    (w : World) (e : exn) :
  out_res (modify_message_labels id add remove w) = Raise e <->
  label_request_escapes w e.
Proof.
  unfold label_request_escapes. rewrite modify_message_labels_run.
  destruct (next_fault w) as [e'|].
  - destruct (is_HttpError e') eqn:E; cbn [out_res]; split.
    + discriminate.
    + intros [[= <-] H]. congruence.
    + intros [= <-]. now split.
    + now intros [[= <-] _].
  - destruct (find (has_id id) (gm_messages (gmail w))); cbn [out_res];
      split; try discriminate; intros [H _]; discriminate H.
Qed.

Lemma model_escapes_iff (classifier : SpamClassifier) (text : string)
    (w : World) (e : exn) :
  out_res (get_spam_probability classifier text w) = Raise e <->
  model_escapes classifier text e.
Proof.
  unfold model_escapes. rewrite get_spam_probability_run.
  destruct (run_model classifier [text]) as [[|p ps]|e'].
  - cbn [out_res]. split.
    + intros [= <-]. left. now split.
    + intros [[_ ->] | [H _]]; [reflexivity | discriminate H].
  - cbn [out_res]. split; [discriminate|].
    intros [[H _] | [H _]]; discriminate H.
  - destruct (is_Exception e') eqn:E; cbn [out_res]; split.
    + discriminate.
    + intros [[H _] | [[= <-] H]]; [discriminate H | congruence].
    + intros [= <-]. right. now split.
    + intros [[H _] | [[= <-] _]]; [discriminate H | reflexivity].
Qed.

(** An exception leaves the loop body in these ways and in no other. *)
Lemma process_message_raises_iff (lower : string -> string)
    (classifier : SpamClassifier) (processed_label_id id : string)
    (w : World) (e : exn) :
  out_res (process_message lower classifier processed_label_id id w) = Raise e
  <-> escapes_loop_body lower classifier id w e.
Proof.
  unfold escapes_loop_body. cbn zeta.
  destruct (next_fault w) as [e0|] eqn:Hfault.
  { rewrite (process_message_fetch_raises _ _ _ _ _ e0).
    - cbn [out_res]. split; [now intros [= <-] | now intros ->].
    - now rewrite users_messages_get_run, Hfault. }
  destruct (find (has_id id) (gm_messages (gmail w))) as [email|] eqn:Hfind.
  2: { rewrite (process_message_fetch_raises _ _ _ _ _ HttpError).
       - cbn [out_res]. split; [now intros [= <-] | now intros ->].
       - now rewrite users_messages_get_run, Hfault, Hfind. }
  destruct (is_trusted lower (sender_of email)) eqn:Htrust.
  - rewrite (process_message_trusted _ _ _ _ _ _ Hfault Hfind Htrust).
    cbn [out_res]. apply label_request_escapes_iff.
  - rewrite (process_message_untrusted _ _ _ _ _ _ Hfault Hfind Htrust).
    cbn zeta.
    set (w1 := mkWorld (gmail w) (advance w)).
    set (text := text_to_classify _ _ _).
    pose proof (fun e' => model_escapes_iff classifier text w1 e') as Hmodel.
    destruct (out_res (get_spam_probability classifier text w1)) as [p|e1].
    + assert (Hno : forall e', ~ model_escapes classifier text e').
      { intros e' H. apply Hmodel in H. discriminate H. }
      destruct (SPAM_CONFIDENCE_THRESHOLD <? p)%float; cbn [out_res];
        rewrite label_request_escapes_iff; split.
      all: try (intros H; right; now split).
      all: intros [H | [_ H]]; [now apply Hno in H | exact H].
    + cbn [out_res]. split.
      * intros [= <-]. left. now apply Hmodel.
      * intros [H | [Hno _]].
        -- apply Hmodel in H. now injection H as <-.
        -- exfalso. apply (Hno e1). now apply Hmodel.
Qed.

(** C4 (as the code has it): two failures are absorbed for the message
    they occur in, and the batch goes on: the [HttpError] of a label request
    (caught in [modify_message_labels]) and an exception under [Exception]
    raised by the model (caught in [get_spam_probabilities_batch], the
    message being scored 0.0). An exception leaves the loop body exactly
    when the fetch raises, or the label request raises something other than
    an [HttpError], or the model returns no probability or raises outside
    [Exception]. One that does, and is under [Exception], is caught once for
    the turn: the messages before it have been processed, the failure is
    logged, nothing is done in that turn for the messages after it, and the
    turn ends normally with its sleep. *)
Theorem failure_is_caught_per_cycle (lower : string -> string)
    (matches : string -> list Label -> Email -> bool)
    (classifier : SpamClassifier) (processed_label_id id : string)
    (pre post : list string) (w : World) (e : exn) :
  let body := process_message lower classifier processed_label_id in
  let o_pre := for_each pre body (mkWorld (gmail w) (advance w)) in
  let o_id := body id (out_world o_pre) in
  next_fault w = None ->
  listing matches query (gmail w) = pre ++ id :: post ->
  out_res o_pre = Ok tt ->
  out_res o_id = Raise e ->
  is_Exception e = true ->
  let o := poll_cycle lower matches classifier processed_label_id w in
  out_res o = Ok tt /\
  out_world o = out_world o_id /\
  out_events o
  = MessagesList query
    :: Log INFO (FoundMessages (length (pre ++ id :: post)))
    :: out_events o_pre ++ out_events o_id
    ++ [Log ERROR (if is_HttpError e then ApiError e else UnexpectedError e);
        Sleep POLL_INTERVAL_SECONDS] /\
  (forall mid add remove w',
     out_res (modify_message_labels mid add remove w') <> Raise HttpError) /\
  (forall id' w' e',
     out_res (body id' w') = Raise e' <->
     escapes_loop_body lower classifier id' w' e') /\
  (forall id' w' email e0,
     next_fault w' = None ->
     find (has_id id') (gm_messages (gmail w')) = Some email ->
     is_trusted lower (sender_of email) = false ->
     run_model classifier
       [text_to_classify (subject_of email) (sender_of email)
                         (email_snippet email)] = Raise e0 ->
     is_Exception e0 = true ->
     (forall e', ~ label_request_escapes
                     (mkWorld (gmail w') (advance w')) e') ->
     out_res (body id' w') = Ok tt /\
     decisions (out_events (body id' w')) = [Ham]) /\
  (forall id' rest w',
     out_res (body id' w') = Ok tt ->
     for_each (id' :: rest) body w' =
     mkOut (out_res (for_each rest body (out_world (body id' w'))))
           (out_world (for_each rest body (out_world (body id' w'))))
           (out_events (body id' w')
            ++ out_events (for_each rest body (out_world (body id' w'))))).
Proof.
  intros body o_pre o_id Hfault Hlist Hpre Hid He o.
  destruct (failure_ends_the_turn lower matches classifier processed_label_id
              id pre post w e Hfault Hlist Hpre Hid He)
    as (H1 & H2 & H3 & H4).
  split; [exact H1|]. split; [exact H2|]. split; [exact H3|].
  split; [exact H4|]. split; [|split].
  - intros id' w' e'. apply process_message_raises_iff.
  - intros id' w' email e0 Hf Hfind Htrust Hraise Hexc Hlabel.
    assert (Hno : forall e', ~ escapes_loop_body lower classifier id' w' e').
    { intros e'. unfold escapes_loop_body. cbn zeta.
      rewrite Hf, Hfind, Htrust.
      intros [Hm | [_ Hl]]; [|now apply Hlabel in Hl].
      destruct Hm as [[Hm _] | [Hm Hne]]; [congruence|].
      rewrite Hraise in Hm. injection Hm as <-. congruence. }
    split.
    + destruct (out_res (body id' w')) as [[]|e'] eqn:E; [reflexivity|].
      exfalso. apply (Hno e').
      exact (proj1 (process_message_raises_iff lower classifier
                      processed_label_id id' w' e') E).
    + assert (Hp : out_res (get_spam_probability classifier
                     (text_to_classify (subject_of email) (sender_of email)
                                       (email_snippet email)) w')
                   = Ok 0.0%float).
      { now rewrite get_spam_probability_run, Hraise, Hexc. }
      destruct (process_message_classified lower classifier
                  processed_label_id id' w' email _ Hf Hfind Htrust Hp)
        as (Hd & _).
      exact Hd.
  - intros id' rest w' Hok. cbn [for_each]. rewrite bind_run.
    fold body. now rewrite Hok.
Qed.

(** A model that raises on every text does not end the batch: the three
    messages are fetched and labelled. *)
Example broken_model_does_not_end_the_batch :
  let o := poll_cycle Scenario.ascii_lower Scenario.unread_unprocessed
             Scenario.broken "Label_7" (mkWorld Scenario.inbox []) in
  fetches (out_events o) = ["m1"; "m2"; "m3"] /\
  decisions (out_events o) = [Trusted; Ham; Ham] /\
  mutations (out_events o)
  = [("m1", ["Label_7"], []); ("m2", ["Label_7"], []);
     ("m3", ["Label_7"], [])].
Proof. vm_compute. repeat split; reflexivity. Qed.

Lemma failure_is_caught_per_cycle_witness :
  let w := mkWorld Scenario.inbox [None; None; None; Some HttpError] in
  let o := poll_cycle Scenario.ascii_lower Scenario.unread_unprocessed
             Scenario.sure "Label_7" w in
  out_res o = Ok tt /\
  fetches (out_events o) = ["m1"; "m2"] /\
  mutations (out_events o) = [("m1", ["Label_7"], [])].
Proof.
  pose proof (failure_is_caught_per_cycle Scenario.ascii_lower
                Scenario.unread_unprocessed Scenario.sure "Label_7" "m2"
                ["m1"] ["m3"]
                (mkWorld Scenario.inbox [None; None; None; Some HttpError])
                HttpError) as H.
  cbn zeta in H.
  destruct H as (Hres & _ & Hev & _); try reflexivity.
  split; [exact Hres|]. rewrite Hev. split; vm_compute; reflexivity.
Defined.

(** ** Single and batch classification *)

(** [get_spam_probability] is the batch call on the one-element list,
    followed by taking the first element of what it returns. *)
Lemma get_spam_probability_is_batch_head (self : SpamClassifier)
    (text : string) (w : World) :
  let batch := get_spam_probabilities_batch self [text] w in
  out_world (get_spam_probability self text w) = out_world batch /\
  out_events (get_spam_probability self text w) = out_events batch /\
  out_res (get_spam_probability self text w)
  = match out_res batch with
    | Ok (p :: _) => Ok p
    | Ok [] => Raise OtherException
    | Raise e => Raise e
    end.
Proof.
  cbn zeta. rewrite get_spam_probability_run, get_spam_probabilities_batch_run.
  destruct (run_model self [text]) as [[|p ps]|e]; cbn; auto.
  destruct (is_Exception e); cbn; auto.
Qed.

(** ** Headers *)

Lemma headers_dict_snoc (hs : list (string * string)) (h : string * string) :
  headers_dict (hs ++ [h]) = <[h.1 := h.2]> (headers_dict hs).
Proof. unfold headers_dict. now rewrite foldl_snoc. Qed.

Lemma headers_dict_lookup (hs : list (string * string)) (name : string) :
  headers_dict hs !! name = last_header name hs.
Proof.
  unfold last_header.
  induction hs as [|h hs IH] using rev_ind.
  - reflexivity.
  - rewrite headers_dict_snoc, rev_app_distr. cbn [rev app find].
    destruct (String.eqb_spec h.1 name) as [<- | Hne].
    + now rewrite lookup_insert_eq.
    + now rewrite lookup_insert_ne.
Qed.

(** X1: the sender and the subject of a message are the values of its
    last header named exactly [From] and [Subject]; a message without such
    a header gets [[No Sender]] and [[No Subject]]. *)
Theorem last_header_decides (email : Email) :
  sender_of email
  = default "[No Sender]" (last_header "From" (email_headers email)) /\
  subject_of email
  = default "[No Subject]" (last_header "Subject" (email_headers email)) /\
  (forall pre post value,
     email_headers email = pre ++ ("From", value) :: post ->
     last_header "From" post = None ->
     sender_of email = value) /\
  (last_header "From" (email_headers email) = None <->
   forall h, In h (email_headers email) -> fst h <> "From").
Proof.
  unfold sender_of, subject_of, dict_get.
  rewrite !headers_dict_lookup.
  split; [reflexivity|]. split; [reflexivity|]. split.
  - intros pre post value -> Hpost. unfold last_header in *.
    change (pre ++ ("From", value) :: post)
      with (pre ++ [("From", value)] ++ post).
    rewrite !rev_app_distr, <- app_assoc.
    destruct (find (fun h => String.eqb h.1 "From") (rev post)) as [h|] eqn:E;
      [discriminate|].
    now rewrite (find_app_none _ _ _ E).
  - unfold last_header.
    destruct (find (fun h => String.eqb h.1 "From") (rev (email_headers email)))
      as [h|] eqn:E.
    + split; [discriminate|]. intros Hall. exfalso.
      apply find_some in E as [Hin Heq].
      apply String.eqb_eq in Heq. apply (Hall h); [|exact Heq].
      now apply List.in_rev.
    + split; [|reflexivity]. intros _ h Hin Heq.
      apply List.in_rev in Hin.
      pose proof (find_none _ _ E h Hin) as Hf. cbn in Hf.
      rewrite Heq in Hf. discriminate.
Qed.

Lemma last_header_decides_witness :
  sender_of (mkEmail "m9"
               [("From", "boss@gmail.com"); ("from", "x@github.com");
                ("From", "mallory@unknown.biz"); ("Subject", "Hi")]
               "..." ["UNREAD"])
  = "mallory@unknown.biz".
Proof.
  pose proof (last_header_decides
                (mkEmail "m9"
                   [("From", "boss@gmail.com"); ("from", "x@github.com");
                    ("From", "mallory@unknown.biz"); ("Subject", "Hi")]
                   "..." ["UNREAD"])) as (_ & _ & H & _).
  apply (H [("From", "boss@gmail.com"); ("from", "x@github.com")]
           [("Subject", "Hi")]); reflexivity.
Defined.

(** ** The trust check *)

Lemma prefix_iff (sub s : string) :
  String.prefix sub s = true <-> exists post, s = sub +:+ post.
Proof.
  revert s. induction sub as [|c sub IH]; intros s.
  - split; [intros _; now exists s | intros _; now destruct s].
  - destruct s as [|c' s]; cbn.
    + split; [discriminate | intros [post H]; discriminate H].
    + destruct (Ascii.ascii_dec c c') as [<- | Hne].
      * rewrite IH. split; intros [post H]; exists post.
        -- now rewrite H.
        -- now injection H.
      * split; [discriminate|]. intros [post H]. injection H as H _.
        now symmetry in H.
Qed.

(** [sub in s] is containment of [sub] somewhere in [s]. *)
Lemma str_in_iff (sub s : string) :
  str_in sub s = true <-> exists pre post, s = pre +:+ sub +:+ post.
Proof.
  induction s as [|c s IH]; cbn [str_in]; rewrite orb_true_iff, prefix_iff.
  - split.
    + intros [[post H] | H]; [|discriminate]. now exists "", post.
    + intros (pre & post & H). left.
      destruct pre; [now exists post | discriminate H].
  - rewrite IH. split.
    + intros [[post H] | (pre & post & H)].
      * now exists "", post.
      * exists (String c pre), post. cbn. now rewrite H.
    + intros (pre & post & H). destruct pre as [|c' pre].
      * left. now exists post.
      * right. injection H as _ H. now exists pre, post.
Qed.

(** X2: a sender is trusted exactly when its lower-cased header contains
    one of the trusted domains anywhere: whatever comes before and after
    the domain in the header does not matter. *)
Theorem trust_is_containment_anywhere (lower : string -> string)
    (sender : string) :
  is_trusted lower sender = true <->
  exists domain pre post,
    In domain TRUSTED_DOMAINS /\ lower sender = pre +:+ domain +:+ post.
Proof.
  rewrite is_trusted_iff. split.
  - intros (domain & Hin & Hsub). apply str_in_iff in Hsub as (pre & post & H).
    now exists domain, pre, post.
  - intros (domain & pre & post & Hin & H). exists domain. split; [exact Hin|].
    apply str_in_iff. now exists pre, post.
Qed.

(** A trusted domain followed by another domain still makes the sender
    trusted. *)
Example trusted_domain_as_a_prefix_of_another :
  is_trusted Scenario.ascii_lower "Google Support <x@Google.com.evil.net>"
  = true.
Proof. vm_compute. reflexivity. Qed.

(** ** What the loop never does *)

Lemma always_ret {A : Type} (P : event -> Prop) (a : A) : always P (mret a).
Proof. intros w. constructor. Qed.

Lemma always_raise {A : Type} (P : event -> Prop) (e : exn) :
  always P (@raise A e).
Proof. intros w. constructor. Qed.

Lemma always_emit (P : event -> Prop) (ev : event) : P ev -> always P (emit ev).
Proof. intros H w. cbn. now repeat constructor. Qed.

Lemma always_bind {A B : Type} (P : event -> Prop) (m : M A) (f : A -> M B) :
  always P m -> (forall a, always P (f a)) -> always P (m ≫= f).
Proof.
  intros Hm Hf w. rewrite bind_run.
  destruct (out_res (m w)) as [a|e]; cbn [out_events]; [|apply Hm].
  apply Forall_app. split; [apply Hm | apply Hf].
Qed.

Lemma always_try_except {A : Type} (P : event -> Prop) (body : M A)
    (caught : exn -> bool) (handler : exn -> M A) :
  always P body -> (forall e, always P (handler e)) ->
  always P (try_except body caught handler).
Proof.
  intros Hb Hh w. unfold try_except.
  destruct (out_res (body w)) as [a|e]; [apply Hb|].
  destruct (caught e); [|apply Hb].
  cbn [out_events]. apply Forall_app. split; [apply Hb | apply Hh].
Qed.

Lemma always_execute {A : Type} (P : event -> Prop) (request : event)
    (serve : Gmail -> option (A * Gmail)) :
  P request -> always P (execute request serve).
Proof.
  intros H w. rewrite execute_run.
  destruct (next_fault w); [now repeat constructor|].
  destruct (serve (gmail w)) as [[a g]|]; now repeat constructor.
Qed.

Lemma always_for_each {A : Type} (P : event -> Prop) (xs : list A)
    (body : A -> M unit) :
  (forall x, always P (body x)) -> always P (for_each xs body).
Proof.
  intros Hbody. induction xs as [|x xs IH]; cbn [for_each].
  - apply always_ret.
  - apply always_bind; [apply Hbody | intros _; exact IH].
Qed.

Lemma always_modify_message_labels (P : event -> Prop) (id : string)
    (add remove : list string) :
  P (MessagesModify id add remove) ->
  (forall e, P (Log ERROR (FailedToModifyLabels id e))) ->
  always P (modify_message_labels id add remove).
Proof.
  intros Hm Hl. apply always_try_except.
  - now apply always_execute.
  - intros e. now apply always_emit.
Qed.

Lemma always_get_spam_probability (P : event -> Prop)
    (classifier : SpamClassifier) (text : string) :
  P (ModelRun [text]) -> (forall lvl m, P (Log lvl m)) ->
  always P (get_spam_probability classifier text).
Proof.
  intros Hrun Hlog. apply always_bind.
  - apply always_try_except.
    + apply always_bind; [now apply always_emit|]. intros _.
      destruct (run_model classifier [text]);
        [apply always_ret | apply always_raise].
    + intros e. apply always_bind; [now apply always_emit|].
      intros _. apply always_ret.
  - intros [|p ps]; [apply always_raise | apply always_ret].
Qed.

Lemma always_process_message (lower : string -> string)
    (classifier : SpamClassifier) (processed_label_id id : string) :
  always (loop_event_ok processed_label_id)
         (process_message lower classifier processed_label_id id).
Proof.
  apply always_bind; [now apply always_execute|].
  intros email. cbn zeta.
  destruct (is_trusted lower (sender_of email)).
  - apply always_bind; [now apply always_emit|]. intros _.
    apply always_modify_message_labels; cbn; auto.
  - apply always_bind.
    + apply always_get_spam_probability; cbn; eauto.
    + intros p. destruct (SPAM_CONFIDENCE_THRESHOLD <? p)%float;
        (apply always_bind; [now apply always_emit|]); intros _;
        apply always_modify_message_labels; cbn; auto.
Qed.

Lemma always_poll_cycle (lower : string -> string)
    (matches : string -> list Label -> Email -> bool)
    (classifier : SpamClassifier) (processed_label_id : string) :
  always (loop_event_ok processed_label_id)
         (poll_cycle lower matches classifier processed_label_id).
Proof.
  apply always_bind; [|intros _; now apply always_emit].
  apply always_try_except.
  - apply always_bind; [now apply always_execute|].
    intros messages. apply always_bind.
    + destruct messages; now apply always_emit.
    + intros _. apply always_for_each. intros id.
      apply always_process_message.
  - intros e. destruct (is_HttpError e); now apply always_emit.
Qed.

Lemma always_poll_loop (lower : string -> string)
    (matches : string -> list Label -> Email -> bool)
    (classifier : SpamClassifier) (processed_label_id : string) (turns : nat) :
  always (loop_event_ok processed_label_id)
         (poll_loop lower matches turns classifier processed_label_id).
Proof.
  induction turns as [|n IH]; cbn [poll_loop].
  - apply always_ret.
  - apply always_bind; [apply always_poll_cycle | intros _; exact IH].
Qed.

Lemma mutations_In (evs : list event) (id : string) (add remove : list string) :
  In (id, add, remove) (mutations evs) <-> In (MessagesModify id add remove) evs.
Proof.
  unfold mutations. rewrite <- !list_elem_of_In, list_elem_of_omap. split.
  - intros (ev & Hin & Hev). destruct ev; try discriminate.
    now injection Hev as -> -> ->.
  - intros Hin. now exists (MessagesModify id add remove).
Qed.

Lemma model_runs_In (evs : list event) (texts : list string) :
  In texts (model_runs evs) <-> In (ModelRun texts) evs.
Proof.
  unfold model_runs. rewrite <- !list_elem_of_In, list_elem_of_omap. split.
  - intros (ev & Hin & Hev). destruct ev; try discriminate.
    now injection Hev as ->.
  - intros Hin. now exists (ModelRun texts).
Qed.

(** X3: however long the loop runs and whatever fails, the only label
    changes it asks for are "add the processed label" and "add SPAM, remove
    INBOX": it never removes another label and never adds another one. *)
Theorem loop_requests_only_two_label_changes (lower : string -> string)
    (matches : string -> list Label -> Email -> bool)
    (classifier : SpamClassifier) (processed_label_id : string)
    (turns : nat) (w : World) (id : string) (add remove : list string) :
  In (id, add, remove)
     (mutations (out_events
                   (poll_loop lower matches turns classifier
                              processed_label_id w))) ->
  (add = [processed_label_id] /\ remove = []) \/
  (add = ["SPAM"] /\ remove = ["INBOX"]).
Proof.
  intros Hin. apply mutations_In in Hin.
  pose proof (always_poll_loop lower matches classifier processed_label_id
                turns w) as Hall.
  rewrite List.Forall_forall in Hall. exact (Hall _ Hin).
Qed.

Lemma loop_requests_only_two_label_changes_witness :
  (["SPAM"] = ["Label_7"] /\ ["INBOX"] = @nil string) \/
  (["SPAM"] = ["SPAM"] /\ ["INBOX"] = ["INBOX"]).
Proof.
  apply (loop_requests_only_two_label_changes Scenario.ascii_lower
           Scenario.unread_unprocessed Scenario.sure "Label_7" 2
           (mkWorld Scenario.inbox []) "m2" ["SPAM"] ["INBOX"]).
  vm_compute. right. left. reflexivity.
Defined.

(** X4: the loop never classifies in batches: every run of the model, in
    any number of turns, is on exactly one text, built from the subject,
    the sender and the snippet of one message. *)
Theorem loop_classifies_one_text_at_a_time (lower : string -> string)
    (matches : string -> list Label -> Email -> bool)
    (classifier : SpamClassifier) (processed_label_id : string)
    (turns : nat) (w : World) (texts : list string) :
  In texts
     (model_runs (out_events
                    (poll_loop lower matches turns classifier
                               processed_label_id w))) ->
  exists subject sender snippet,
    texts = [text_to_classify subject sender snippet].
Proof.
  intros Hin. apply model_runs_In in Hin.
  pose proof (always_poll_loop lower matches classifier processed_label_id
                turns w) as Hall.
  rewrite List.Forall_forall in Hall. exact (Hall _ Hin).
Qed.

Lemma loop_classifies_one_text_at_a_time_witness :
  exists subject sender snippet,
    ["Subject: Lunch From: friend@example.org Body: Still on for lunch tomorrow?"]
    = [text_to_classify subject sender snippet].
Proof.
  apply (loop_classifies_one_text_at_a_time Scenario.ascii_lower
           Scenario.unread_unprocessed Scenario.sure "Label_7" 1
           (mkWorld Scenario.inbox [])).
  vm_compute. right. left. reflexivity.
Defined.

(** ** The labels of the account *)

Lemma keeps_labels_ret {A : Type} (a : A) : keeps_labels (mret a).
Proof. intros w. reflexivity. Qed.

Lemma keeps_labels_raise {A : Type} (e : exn) : keeps_labels (@raise A e).
Proof. intros w. reflexivity. Qed.

Lemma keeps_labels_emit (ev : event) : keeps_labels (emit ev).
Proof. intros w. reflexivity. Qed.

Lemma keeps_labels_bind {A B : Type} (m : M A) (f : A -> M B) :
  keeps_labels m -> (forall a, keeps_labels (f a)) -> keeps_labels (m ≫= f).
Proof.
  intros Hm Hf w. rewrite bind_run.
  destruct (out_res (m w)) as [a|e]; cbn [out_world]; [|apply Hm].
  now rewrite Hf, Hm.
Qed.

Lemma keeps_labels_try_except {A : Type} (body : M A) (caught : exn -> bool)
    (handler : exn -> M A) :
  keeps_labels body -> (forall e, keeps_labels (handler e)) ->
  keeps_labels (try_except body caught handler).
Proof.
  intros Hb Hh w. unfold try_except.
  destruct (out_res (body w)) as [a|e]; [apply Hb|].
  destruct (caught e); [|apply Hb].
  cbn [out_world]. now rewrite Hh, Hb.
Qed.

Lemma keeps_labels_execute {A : Type} (request : event)
    (serve : Gmail -> option (A * Gmail)) :
  (forall g a g', serve g = Some (a, g') -> gm_labels g' = gm_labels g) ->
  keeps_labels (execute request serve).
Proof.
  intros Hserve w. rewrite execute_run.
  destruct (next_fault w); [reflexivity|].
  destruct (serve (gmail w)) as [[a g']|] eqn:E; [|reflexivity].
  cbn. now apply (Hserve _ a).
Qed.

Lemma keeps_labels_for_each {A : Type} (xs : list A) (body : A -> M unit) :
  (forall x, keeps_labels (body x)) -> keeps_labels (for_each xs body).
Proof.
  intros Hbody. induction xs as [|x xs IH]; cbn [for_each].
  - apply keeps_labels_ret.
  - apply keeps_labels_bind; [apply Hbody | intros _; exact IH].
Qed.

Lemma keeps_labels_modify_message_labels (id : string)
    (add remove : list string) :
  keeps_labels (modify_message_labels id add remove).
Proof.
  apply keeps_labels_try_except; [|intros e; apply keeps_labels_emit].
  apply keeps_labels_execute. intros g a g' H.
  destruct (find (has_id id) (gm_messages g)); [|discriminate].
  now injection H as _ <-.
Qed.

Lemma keeps_labels_get_spam_probability (classifier : SpamClassifier)
    (text : string) :
  keeps_labels (get_spam_probability classifier text).
Proof. intros w. now rewrite get_spam_probability_world. Qed.

Lemma keeps_labels_process_message (lower : string -> string)
    (classifier : SpamClassifier) (processed_label_id id : string) :
  keeps_labels (process_message lower classifier processed_label_id id).
Proof.
  apply keeps_labels_bind.
  - apply keeps_labels_execute. intros g a g' H.
    destruct (find (has_id id) (gm_messages g)); [|discriminate].
    now injection H as _ <-.
  - intros email. cbn zeta.
    destruct (is_trusted lower (sender_of email)).
    + apply keeps_labels_bind; [apply keeps_labels_emit|]. intros _.
      apply keeps_labels_modify_message_labels.
    + apply keeps_labels_bind; [apply keeps_labels_get_spam_probability|].
      intros p. destruct (SPAM_CONFIDENCE_THRESHOLD <? p)%float;
        (apply keeps_labels_bind; [apply keeps_labels_emit|]); intros _;
        apply keeps_labels_modify_message_labels.
Qed.

Lemma keeps_labels_poll_cycle (lower : string -> string)
    (matches : string -> list Label -> Email -> bool)
    (classifier : SpamClassifier) (processed_label_id : string) :
  keeps_labels (poll_cycle lower matches classifier processed_label_id).
Proof.
  apply keeps_labels_bind; [|intros _; apply keeps_labels_emit].
  apply keeps_labels_try_except.
  - apply keeps_labels_bind.
    + apply keeps_labels_execute. intros g a g' H. now injection H as _ <-.
    + intros messages. apply keeps_labels_bind.
      * destruct messages; apply keeps_labels_emit.
      * intros _. apply keeps_labels_for_each. intros id.
        apply keeps_labels_process_message.
  - intros e. destruct (is_HttpError e); apply keeps_labels_emit.
Qed.

Lemma loop_event_ok_not_label_request (processed_label_id : string)
    (ev : event) :
  loop_event_ok processed_label_id ev -> is_label_request ev = false.
Proof. destruct ev; cbn; intros H; try reflexivity; destruct H. Qed.

(** X5: the loop leaves the labels of the account alone: in any number of
    turns and whatever fails, it issues no request that lists or creates
    labels, and the account has the labels it had. *)
Theorem loop_leaves_account_labels_alone (lower : string -> string)
    (matches : string -> list Label -> Email -> bool)
    (classifier : SpamClassifier) (processed_label_id : string)
    (turns : nat) (w : World) :
  let o := poll_loop lower matches turns classifier processed_label_id w in
  List.filter is_label_request (out_events o) = [] /\
  gm_labels (gmail (out_world o)) = gm_labels (gmail w).
Proof.
  cbn zeta. split.
  - pose proof (always_poll_loop lower matches classifier processed_label_id
                  turns w) as Hall.
    induction Hall as [|ev evs Hev _ IH]; [reflexivity|].
    cbn. now rewrite (loop_event_ok_not_label_request _ _ Hev).
  - revert w. induction turns as [|n IH]; intros w; cbn [poll_loop].
    + reflexivity.
    + rewrite bind_run.
      pose proof (keeps_labels_poll_cycle lower matches classifier
                    processed_label_id w) as Hc.
      destruct (out_res (poll_cycle lower matches classifier
                           processed_label_id w)); cbn [out_world].
      * now rewrite IH.
      * exact Hc.
Qed.

(** ** Start-up and the loop together *)

Lemma poll_gmail_run (lower : string -> string)
    (matches : string -> list Label -> Email -> bool)
    (fresh_label_id : list Label -> string) (turns : nat) (creds : string)
    (classifier : SpamClassifier) (w : World) :
  let ens := ensure_processed_label fresh_label_id w in
  poll_gmail lower matches fresh_label_id turns (Some creds) classifier w =
  match out_res ens with
  | Ok (Some id) =>
      if String.eqb id "" then
        mkOut (Ok Returned) (out_world ens)
              (out_events ens ++ [Log ERROR NoProcessingLabel])
      else
        let o := poll_loop lower matches turns classifier id (out_world ens) in
        mkOut (out_res o) (out_world o) (out_events ens ++ out_events o)
  | Ok None =>
      mkOut (Ok Returned) (out_world ens)
            (out_events ens ++ [Log ERROR NoProcessingLabel])
  | Raise e => mkOut (Raise e) (out_world ens) (out_events ens)
  end.
Proof.
  cbn zeta. unfold poll_gmail. rewrite bind_run.
  destruct (out_res (ensure_processed_label fresh_label_id w)) as [[id|]|e];
    try reflexivity.
  destruct (String.eqb id ""); reflexivity.
Qed.

(** The requests of the label set-up: one listing, then at most one
    creation; nothing on messages. *)
Lemma ensure_processed_label_requests
    (fresh_label_id : list Label -> string) (w : World) :
  let evs := out_events (ensure_processed_label fresh_label_id w) in
  List.filter is_polling_event evs = [] /\
  (List.filter is_label_request evs = [LabelsList] \/
   List.filter is_label_request evs
   = [LabelsList; LabelsCreate PROCESSED_LABEL_NAME "labelHide" "hide"]).
Proof.
  pose proof (ensure_processed_label_run fresh_label_id w) as Hrun.
  cbn zeta in *. rewrite Hrun.
  destruct (next_fault w) as [e|].
  { destruct e; cbn; auto. }
  destruct (find is_processed_label (gm_labels (gmail w))); [cbn; auto|].
  destruct (next_fault _) as [e|]; [destruct e|]; cbn; auto.
Qed.

Lemma loop_event_ok_filter_label_requests (processed_label_id : string)
    (evs : list event) :
  Forall (loop_event_ok processed_label_id) evs ->
  List.filter is_label_request evs = [].
Proof.
  induction 1 as [|ev evs Hev _ IH]; [reflexivity|].
  cbn. now rewrite (loop_event_ok_not_label_request _ _ Hev).
Qed.

(** X6: in a whole run of [poll_gmail] the labels of the account are asked
    for once, at the start: the run issues at most one listing of labels and
    at most one creation, before any request on messages; and it issues
    requests on messages (or sleeps) only if it had credentials and the
    label set-up gave a non-empty identifier. *)
Theorem poll_gmail_resolves_label_once (lower : string -> string)
    (matches : string -> list Label -> Email -> bool)
    (fresh_label_id : list Label -> string) (turns : nat)
    (creds : option string) (classifier : SpamClassifier) (w : World) :
  let o := poll_gmail lower matches fresh_label_id turns creds classifier w in
  (exists setup polling,
     out_events o = setup ++ polling /\
     List.filter is_polling_event setup = [] /\
     List.filter is_label_request polling = [] /\
     (List.filter is_label_request setup = [] \/
      List.filter is_label_request setup = [LabelsList] \/
      List.filter is_label_request setup
      = [LabelsList; LabelsCreate PROCESSED_LABEL_NAME "labelHide" "hide"])) /\
  (List.filter is_polling_event (out_events o) <> [] ->
   creds <> None /\
   exists id, out_res (ensure_processed_label fresh_label_id w) = Ok (Some id) /\
              id <> "").
Proof.
  cbn zeta. destruct creds as [c|].
  2: { split.
       - exists [Log ERROR NoCredentials], []. cbn. auto.
       - cbn. intros H. now contradiction H. }
  pose proof (poll_gmail_run lower matches fresh_label_id turns c classifier w)
    as Hrun.
  cbn zeta in Hrun. rewrite Hrun. clear Hrun.
  destruct (ensure_processed_label_requests fresh_label_id w) as [Hpoll Hlab].
  cbn zeta in Hpoll, Hlab.
  set (ens := ensure_processed_label fresh_label_id w) in *.
  assert (Hstop : forall (r : result status),
            let o := mkOut r (out_world ens)
                       (out_events ens ++ [Log ERROR NoProcessingLabel]) in
            (exists setup polling,
               out_events o = setup ++ polling /\
               List.filter is_polling_event setup = [] /\
               List.filter is_label_request polling = [] /\
               (List.filter is_label_request setup = [] \/
                List.filter is_label_request setup = [LabelsList] \/
                List.filter is_label_request setup
                = [LabelsList;
                   LabelsCreate PROCESSED_LABEL_NAME "labelHide" "hide"])) /\
            List.filter is_polling_event (out_events o) = []).
  { intros r. cbn zeta. cbn [out_events]. split.
    - exists (out_events ens), [Log ERROR NoProcessingLabel].
      split; [reflexivity|]. split; [exact Hpoll|]. split; [reflexivity|].
      now right.
    - now rewrite List.filter_app, Hpoll. }
  destruct (out_res ens) as [[id|]|e] eqn:Eres.
  - destruct (String.eqb_spec id "") as [-> | Hne].
    + destruct (Hstop (Ok Returned)) as [H1 H2]. split; [exact H1|].
      intros H. now contradiction H.
    + cbn zeta. cbn [out_events]. split.
      * exists (out_events ens),
          (out_events (poll_loop lower matches turns classifier id
                         (out_world ens))).
        split; [reflexivity|]. split; [exact Hpoll|]. split; [|now right].
        apply (loop_event_ok_filter_label_requests id).
        apply always_poll_loop.
      * intros _. split; [discriminate|]. now exists id.
  - destruct (Hstop (Ok Returned)) as [H1 H2]. split; [exact H1|].
    intros H. now contradiction H.
  - cbn [out_events]. split.
    + exists (out_events ens), []. rewrite app_nil_r.
      split; [reflexivity|]. split; [exact Hpoll|]. split; [reflexivity|].
      now right.
    + intros H. now contradiction H.
Qed.

Lemma poll_gmail_resolves_label_once_witness :
  Some "token" <> None /\
  exists id,
    out_res (ensure_processed_label Scenario.next_label_id
               (mkWorld Scenario.inbox [])) = Ok (Some id) /\
    id <> "".
Proof.
  pose proof (poll_gmail_resolves_label_once Scenario.ascii_lower
                Scenario.unread_unprocessed Scenario.next_label_id 1
                (Some "token") Scenario.sure (mkWorld Scenario.inbox []))
    as [_ H].
  apply H. vm_compute. discriminate.
Defined.

(** An account that answers with a label whose identifier is empty: the
    run stops as if there were no label. *)
Example empty_label_id_stops_the_run :
  let w := mkWorld
             (mkGmail [mkLabel "" "ML_PROCESSED" "labelHide" "hide"]
                      [Scenario.m1]) [] in
  let o := poll_gmail Scenario.ascii_lower Scenario.unread_unprocessed
             Scenario.next_label_id 3 (Some "token") Scenario.sure w in
  out_res o = Ok Returned /\
  out_events o
  = [LabelsList; Log INFO (FoundExistingLabel "ML_PROCESSED");
     Log ERROR NoProcessingLabel].
Proof. vm_compute. split; reflexivity. Qed.

(** ** Batches *)

(** Every run of the loop body makes exactly one fetch, of the message it
    was given. *)
Lemma process_message_fetches (lower : string -> string)
    (classifier : SpamClassifier) (processed_label_id id : string)
    (w : World) :
  fetches (out_events
             (process_message lower classifier processed_label_id id w))
  = [id].
Proof.
  destruct (out_res (users_messages_get id w)) as [email|e] eqn:Hget.
  - apply users_messages_get_ok in Hget as [Hfault Hfind].
    destruct (is_trusted lower (sender_of email)) eqn:Htrust.
    + rewrite (process_message_trusted _ _ _ _ _ _ Hfault Hfind Htrust).
      cbn [out_events].
      destruct (modify_message_labels_shows (email_id email)
                  [processed_label_id] [] (mkWorld (gmail w) (advance w)))
        as (_ & _ & _ & Hf & _). cbn zeta in Hf.
      change (?f (?a :: ?b :: ?l)) with (f ([a; b] ++ l)).
      now rewrite fetches_app, Hf.
    + rewrite (process_message_untrusted _ _ _ _ _ _ Hfault Hfind Htrust).
      cbn zeta.
      set (w1 := mkWorld (gmail w) (advance w)).
      set (c := get_spam_probability classifier _ w1).
      destruct (get_spam_probability_shows classifier
                  (text_to_classify (subject_of email) (sender_of email)
                                    (email_snippet email)) w1)
        as (_ & _ & _ & Hcf & _). cbn zeta in Hcf. fold c in Hcf.
      destruct (out_res c) as [p|e].
      * destruct (SPAM_CONFIDENCE_THRESHOLD <? p)%float; cbn [out_events].
        -- destruct (modify_message_labels_shows (email_id email)
                       ["SPAM"] ["INBOX"] w1) as (_ & _ & _ & Hf & _).
           cbn zeta in Hf.
           change (?f (?a :: ?l ++ ?b :: ?l')) with (f ([a] ++ l ++ [b] ++ l')).
           now rewrite !fetches_app, Hcf, Hf.
        -- destruct (modify_message_labels_shows (email_id email)
                       [processed_label_id] [] w1) as (_ & _ & _ & Hf & _).
           cbn zeta in Hf.
           change (?f (?a :: ?l ++ ?b :: ?l')) with (f ([a] ++ l ++ [b] ++ l')).
           now rewrite !fetches_app, Hcf, Hf.
      * cbn [out_events].
        change (fetches (?a :: ?l)) with (fetches ([a] ++ l)).
        now rewrite fetches_app, Hcf.
  - now rewrite (process_message_fetch_raises _ _ _ _ _ _ Hget).
Qed.

(** The loop over a batch goes through it in order: what it has fetched is
    an initial part of the batch, all of it unless a message raised, and
    every label request is for a message it has fetched. *)
Lemma for_each_fetches (lower : string -> string)
    (classifier : SpamClassifier) (processed_label_id : string)
    (ids : list string) (w : World) :
  let o := for_each ids (process_message lower classifier processed_label_id)
             w in
  (exists rest, ids = fetches (out_events o) ++ rest) /\
  (out_res o = Ok tt -> fetches (out_events o) = ids) /\
  (forall m, In m (mutations (out_events o)) ->
             In m.1.1 (fetches (out_events o))).
Proof.
  cbn zeta. revert w. induction ids as [|id ids IH]; intros w; cbn [for_each].
  - cbn. split; [now exists []|]. split; [reflexivity | intros m []].
  - rewrite bind_run.
    pose proof (process_message_fetches lower classifier processed_label_id
                  id w) as Hf.
    pose proof (process_message_shows lower classifier processed_label_id
                  id w) as Hm. cbn zeta in Hm.
    set (o1 := process_message lower classifier processed_label_id id w) in *.
    assert (Hm1 : forall m, In m (mutations (out_events o1)) -> m.1.1 = id).
    { intros m Hin.
      destruct Hm as [[_ Hnone] | (d & _ & Hone)].
      - rewrite Hnone in Hin. destruct Hin.
      - rewrite Hone in Hin. destruct Hin as [<- | []]. reflexivity. }
    destruct (out_res o1) as [[]|e]; cbn [out_res out_world out_events].
    + destruct (IH (out_world o1)) as ((rest & Hrest) & Hall & Hmut).
      rewrite fetches_app, mutations_app, Hf.
      split; [|split].
      * exists rest. cbn. now f_equal.
      * intros Hok. cbn. f_equal. now apply Hall.
      * intros m Hin. apply in_app_or in Hin as [Hin | Hin].
        -- left. symmetry. now apply Hm1.
        -- right. now apply Hmut.
    + rewrite Hf. split; [now exists ids|]. split; [discriminate|].
      intros m Hin. left. symmetry. now apply Hm1.
Qed.

(** A turn whose listing succeeds, in terms of its loop over the batch. *)
Lemma poll_cycle_run (lower : string -> string)
    (matches : string -> list Label -> Email -> bool)
    (classifier : SpamClassifier) (processed_label_id : string) (w : World) :
  next_fault w = None ->
  let ids := listing matches query (gmail w) in
  let loop := for_each ids
                (process_message lower classifier processed_label_id)
                (mkWorld (gmail w) (advance w)) in
  poll_cycle lower matches classifier processed_label_id w =
  match out_res loop with
  | Ok _ =>
      mkOut (Ok tt) (out_world loop)
            ([MessagesList query; Log INFO (batch_log ids)]
             ++ out_events loop ++ [Sleep POLL_INTERVAL_SECONDS])
  | Raise e =>
      if is_Exception e then
        mkOut (Ok tt) (out_world loop)
              ([MessagesList query; Log INFO (batch_log ids)]
               ++ out_events loop
               ++ [cycle_error e; Sleep POLL_INTERVAL_SECONDS])
      else
        mkOut (Raise e) (out_world loop)
              ([MessagesList query; Log INFO (batch_log ids)]
               ++ out_events loop)
  end.
Proof.
  intros Hfault ids loop.
  unfold poll_cycle. rewrite bind_run. unfold try_except.
  rewrite bind_run. unfold users_messages_list.
  rewrite execute_run, Hfault.
  cbn [out_res out_world out_events]. fold ids.
  rewrite bind_run.
  replace (match ids with
           | [] => logging INFO NoNewMessages
           | _ :: _ => logging INFO (FoundMessages (length ids))
           end) with (logging INFO (batch_log ids))
    by (destruct ids; reflexivity).
  cbn [logging emit out_res out_world out_events]. fold loop.
  destruct (out_res loop) as [[]|e] eqn:Eloop.
  - cbn [out_res out_world out_events emit].
    f_equal; cbn [app]; now rewrite <- ?app_assoc.
  - cbn [out_res out_world out_events].
    destruct (is_Exception e) eqn:Ee.
    + unfold cycle_error.
      destruct (is_HttpError e);
        cbn [logging emit out_res out_world out_events];
        f_equal; cbn [app]; now rewrite <- ?app_assoc.
    + reflexivity.
Qed.

(** X7: a turn whose listing succeeds takes the listed messages in order:
    the messages it fetches are an initial part of the listing; every
    label request it makes is for a message it has fetched in that turn; and if the turn ended normally without fetching the whole
    listing, it has logged the error that stopped it. *)
Theorem turn_processes_prefix_of_listing (lower : string -> string)
    (matches : string -> list Label -> Email -> bool)
    (classifier : SpamClassifier) (processed_label_id : string) (w : World) :
  next_fault w = None ->
  let o := poll_cycle lower matches classifier processed_label_id w in
  (exists rest,
     listing matches query (gmail w) = fetches (out_events o) ++ rest) /\
  (forall m, In m (mutations (out_events o)) ->
             In m.1.1 (fetches (out_events o))) /\
  (out_res o = Ok tt ->
   fetches (out_events o) = listing matches query (gmail w) \/
   exists e, In (cycle_error e) (out_events o)).
Proof.
  intros Hfault. cbn zeta.
  pose proof (poll_cycle_run lower matches classifier processed_label_id w
                Hfault) as Hrun.
  cbn zeta in Hrun. rewrite Hrun. clear Hrun.
  set (ids := listing matches query (gmail w)).
  set (w0 := mkWorld (gmail w) (advance w)).
  destruct (for_each_fetches lower classifier processed_label_id ids w0)
    as (Hpre & Hall & Hmut).
  cbn zeta in Hpre, Hall, Hmut.
  set (loop := for_each ids _ w0) in *.
  assert (Hshape : forall tail, fetches tail = [] -> mutations tail = [] ->
            fetches ([MessagesList query; Log INFO (batch_log ids)]
                     ++ out_events loop ++ tail)
            = fetches (out_events loop) /\
            mutations ([MessagesList query; Log INFO (batch_log ids)]
                       ++ out_events loop ++ tail)
            = mutations (out_events loop)).
  { intros tail Hft Hmt.
    rewrite !fetches_app, !mutations_app, Hft, Hmt, !app_nil_r.
    split; reflexivity. }
  destruct (out_res loop) as [[]|e] eqn:Eloop.
  - cbn [out_res out_events].
    destruct (Hshape [Sleep POLL_INTERVAL_SECONDS] eq_refl eq_refl) as [-> ->].
    split; [exact Hpre|]. split; [exact Hmut|].
    intros _. left. now apply Hall.
  - destruct (is_Exception e); cbn [out_res out_events].
    + destruct (Hshape [cycle_error e; Sleep POLL_INTERVAL_SECONDS])
        as [Hf Hm].
      { unfold cycle_error. now destruct (is_HttpError e). }
      { unfold cycle_error. now destruct (is_HttpError e). }
      rewrite Hf, Hm.
      split; [exact Hpre|]. split; [exact Hmut|].
      intros _. right. exists e.
      apply in_or_app. right. apply in_or_app. right. now left.
    + destruct (Hshape [] eq_refl eq_refl) as [Hf Hm].
      rewrite app_nil_r in Hf, Hm. rewrite Hf, Hm.
      split; [exact Hpre|]. split; [exact Hmut|]. discriminate.
Qed.

Lemma turn_processes_prefix_of_listing_witness :
  let w := mkWorld Scenario.inbox [None; None; None; Some HttpError] in
  let o := poll_cycle Scenario.ascii_lower Scenario.unread_unprocessed
             Scenario.sure "Label_7" w in
  exists rest, ["m1"; "m2"; "m3"] = fetches (out_events o) ++ rest.
Proof.
  pose proof (turn_processes_prefix_of_listing Scenario.ascii_lower
                Scenario.unread_unprocessed Scenario.sure "Label_7"
                (mkWorld Scenario.inbox [None; None; None; Some HttpError])
                eq_refl) as [H _].
  exact H.
Defined.

(** X8: a turn whose listing is empty logs that there is nothing new and
    sleeps: it fetches nothing, runs no model, asks for no label change and
    leaves the provider as it is. *)
Theorem empty_listing_only_sleeps (lower : string -> string)
    (matches : string -> list Label -> Email -> bool)
    (classifier : SpamClassifier) (processed_label_id : string) (w : World) :
  next_fault w = None ->
  listing matches query (gmail w) = [] ->
  poll_cycle lower matches classifier processed_label_id w =
  mkOut (Ok tt) (mkWorld (gmail w) (advance w))
        [MessagesList query; Log INFO NoNewMessages;
         Sleep POLL_INTERVAL_SECONDS].
Proof.
  intros Hfault Hempty.
  unfold poll_cycle, try_except, users_messages_list.
  rewrite !bind_run, execute_run, Hfault.
  cbn [out_res out_world out_events]. rewrite Hempty. reflexivity.
Qed.

Lemma empty_listing_only_sleeps_witness :
  poll_cycle Scenario.ascii_lower Scenario.unread_unprocessed Scenario.sure
    "Label_7" (mkWorld (mkGmail [Scenario.processed] []) [])
  = mkOut (Ok tt) (mkWorld (mkGmail [Scenario.processed] []) [])
          [MessagesList query; Log INFO NoNewMessages;
           Sleep POLL_INTERVAL_SECONDS].
Proof.
  apply (empty_listing_only_sleeps Scenario.ascii_lower
           Scenario.unread_unprocessed Scenario.sure "Label_7"
           (mkWorld (mkGmail [Scenario.processed] []) []));
    reflexivity.
Defined.

(** ** Which exceptions get out *)

(** X9: the batch call hands on what the model returns as it is (it does
    not check its length against the input) and lets through only an
    exception outside [Exception]; the single call raises only that, or the
    IndexError of a model that returned no probability; neither changes
    anything at the provider. *)
Theorem classifier_lets_through_only (self : SpamClassifier)
    (texts : list string) (text : string) (w : World) :
  let batch := get_spam_probabilities_batch self texts w in
  let single := get_spam_probability self text w in
  (forall ps, run_model self texts = Ok ps ->
              batch = mkOut (Ok ps) w [ModelRun texts]) /\
  (forall e, out_res batch = Raise e ->
             is_Exception e = false /\ run_model self texts = Raise e) /\
  (forall e, out_res single = Raise e ->
             (e = OtherException /\ run_model self [text] = Ok []) \/
             (is_Exception e = false /\ run_model self [text] = Raise e)) /\
  out_world batch = w /\ out_world single = w.
Proof.
  cbn zeta. rewrite get_spam_probabilities_batch_run, get_spam_probability_run.
  split; [|split; [|split; [|split]]].
  - intros ps ->. reflexivity.
  - intros e. destruct (run_model self texts) as [ps|e']; [discriminate|].
    destruct (is_Exception e') eqn:E; [discriminate|].
    cbn. intros [= <-]. split; [exact E | reflexivity].
  - intros e. destruct (run_model self [text]) as [[|p ps]|e'].
    + cbn. intros [= <-]. left. split; reflexivity.
    + discriminate.
    + destruct (is_Exception e') eqn:E; [discriminate|].
      cbn. intros [= <-]. right. split; [exact E | reflexivity].
  - destruct (run_model self texts) as [ps|e']; [reflexivity|].
    destruct (is_Exception e'); reflexivity.
  - destruct (run_model self [text]) as [[|p ps]|e']; try reflexivity.
    destruct (is_Exception e'); reflexivity.
Qed.

(** A model that answers with fewer probabilities than texts: the batch
    call returns the short list. *)
Example short_answer_is_handed_on :
  out_res (get_spam_probabilities_batch
             (mkClassifier (fun _ => Ok [0.5%float])) ["a"; "b"; "c"]
             (mkWorld Scenario.inbox []))
  = Ok [0.5%float].
Proof. reflexivity. Qed.

(** X10: [modify_message_labels] raises exactly when the request raises
    something other than an [HttpError], and then that exception; a request
    the provider refuses is never raised. *)
Theorem modify_message_labels_raises_iff (id : string)
    (add remove : list string) (w : World) (e : exn) :
  out_res (modify_message_labels id add remove w) = Raise e <->
  next_fault w = Some e /\ is_HttpError e = false.
Proof.
  rewrite modify_message_labels_run.
  destruct (next_fault w) as [e'|].
  - destruct e'; cbn; split.
    all: try discriminate.
    all: try (intros [[= <-] H]; discriminate H).
    all: try (intros [= <-]; split; reflexivity).
    all: intros [[= <-] _]; reflexivity.
  - destruct (find (has_id id) (gm_messages (gmail w))); cbn;
      split; try discriminate; intros [H _]; discriminate H.
Qed.

(** A turn can only be left by an exception outside [Exception]. *)
Lemma poll_cycle_raises_only (lower : string -> string)
    (matches : string -> list Label -> Email -> bool)
    (classifier : SpamClassifier) (processed_label_id : string)
    (w : World) (e : exn) :
  out_res (poll_cycle lower matches classifier processed_label_id w) = Raise e ->
  is_Exception e = false.
Proof.
  unfold poll_cycle. rewrite bind_run. unfold try_except.
  set (body := (users_messages_list matches query ≫= _) w).
  destruct (out_res body) as [[]|e'] eqn:Eb.
  - rewrite Eb. cbn. discriminate.
  - destruct (is_Exception e') eqn:Ee.
    + destruct (is_HttpError e'); cbn; discriminate.
    + rewrite Eb. cbn. now intros [= <-].
Qed.

(** X11: with no assumption on the provider, the model or the faults: a
    run of the loop is still polling when its turns are used up, unless an
    exception outside [Exception] (the process being interrupted) was
    raised; no other failure ends it. *)
Theorem only_an_interrupt_ends_the_loop (lower : string -> string)
    (matches : string -> list Label -> Email -> bool)
    (classifier : SpamClassifier) (processed_label_id : string)
    (turns : nat) (w : World) :
  let o := poll_loop lower matches turns classifier processed_label_id w in
  out_res o = Ok StillPolling \/
  exists e, out_res o = Raise e /\ is_Exception e = false.
Proof.
  cbn zeta. revert w. induction turns as [|n IH]; intros w; cbn [poll_loop].
  - now left.
  - rewrite bind_run.
    destruct (out_res (poll_cycle lower matches classifier
                         processed_label_id w)) as [[]|e] eqn:E.
    + cbn [out_res]. apply IH.
    + right. exists e. split; [reflexivity|].
      now apply (poll_cycle_raises_only _ _ _ _ _ _ E).
Qed.

(** ** Probabilities that are not numbers *)

Lemma SFcompare_refl_not_nan (x : spec_float) :
  SFeqb x x = false -> x = S754_nan.
Proof.
  unfold SFeqb. destruct x as [s|s| |s m e]; cbn; try reflexivity.
  - destruct s; discriminate.
  - destruct s; discriminate.
  - destruct s; rewrite Z.compare_refl, Pos.compare_cont_refl; discriminate.
Qed.

Lemma float_ltb_nan (t p : float) :
  PrimFloat.is_nan p = true -> (t <? p)%float = false.
Proof.
  unfold PrimFloat.is_nan.
  rewrite Bool.negb_true_iff, FloatAxioms.eqb_spec, FloatAxioms.ltb_spec.
  intros H. apply SFcompare_refl_not_nan in H. rewrite H.
  unfold SFltb. now destruct (Prim2SF t).
Qed.

(** X12: a message for which the classifier answers NaN is not marked as
    spam: it is disposed of as Ham and gets the processed label. *)
Theorem nan_is_not_spam (lower : string -> string)
    (classifier : SpamClassifier) (processed_label_id id : string)
    (w : World) (email : Email) (p : float) :
  next_fault w = None ->
  find (has_id id) (gm_messages (gmail w)) = Some email ->
  is_trusted lower (sender_of email) = false ->
  out_res (get_spam_probability classifier
             (text_to_classify (subject_of email) (sender_of email)
                               (email_snippet email)) w) = Ok p ->
  PrimFloat.is_nan p = true ->
  let evs := out_events
               (process_message lower classifier processed_label_id id w) in
  decisions evs = [Ham] /\
  mutations evs = [(id, [processed_label_id], [])].
Proof.
  intros Hfault Hfind Htrust Hp Hnan evs.
  destruct (process_message_classified lower classifier processed_label_id id
              w email p Hfault Hfind Htrust Hp) as (Hd & Hm & _).
  fold evs in Hd, Hm.
  rewrite Hd, Hm, (float_ltb_nan _ _ Hnan), (find_has_id _ _ _ Hfind).
  split; reflexivity.
Qed.

Lemma nan_is_not_spam_witness :
  let evs := out_events
               (process_message Scenario.ascii_lower
                  (mkClassifier (fun texts => Ok (map (fun _ => nan) texts)))
                  "Label_7" "m2" (mkWorld Scenario.inbox [])) in
  decisions evs = [Ham] /\ mutations evs = [("m2", ["Label_7"], [])].
Proof.
  apply (nan_is_not_spam Scenario.ascii_lower
           (mkClassifier (fun texts => Ok (map (fun _ => nan) texts)))
           "Label_7" "m2" (mkWorld Scenario.inbox []) Scenario.m2 nan).
  - reflexivity.
  - reflexivity.
  - vm_compute. reflexivity.
  - vm_compute. reflexivity.
  - vm_compute. reflexivity.
Defined.

(** ** Credentials *)

Ltac auth_cases env :=
  unfold get_credentials, load_token, refresh_step, flow_step, write_step,
    auth_bind;
  destruct (token_file env) as [[c|e0]|]; cbn;
  repeat match goal with
    | |- context [valid ?c] => destruct (valid c) eqn:?; cbn
    | |- context [expired ?c && has_refresh_token ?c] =>
        destruct (expired c && has_refresh_token c) eqn:?; cbn
    | |- context [refresh env ?c] => destruct (refresh env c) as [?c'|?e1] eqn:?; cbn
    | |- context [is_Exception ?e] => destruct (is_Exception e) eqn:?; cbn
    | |- context [run_flow env] => destruct (run_flow env) as [[?c2|]|?e2] eqn:?; cbn
    | |- context [write_fault env] => destruct (write_fault env) as [?e3|] eqn:?; cbn
    end.

(** X13: [get_credentials] never returns [None]: when no credentials can
    be had it raises. *)
Theorem get_credentials_never_returns_none (env : AuthEnv) :
  fst (get_credentials env) <> Ok None.
Proof. auth_cases env; discriminate. Qed.

Lemma get_credentials_never_returns_none_witness :
  fst (get_credentials (mkAuthEnv None (fun x => Ok x) (Ok None) None))
  <> Ok None.
Proof.
  exact (get_credentials_never_returns_none
           (mkAuthEnv None (fun x => Ok x) (Ok None) None)).
Defined.

(** A sign-in flow that hands back nothing: the token file is opened and
    the AttributeError of [None.to_json()] leaves the function. *)
Example flow_without_credentials_raises :
  get_credentials (mkAuthEnv None (fun x => Ok x) (Ok None) None)
  = (Raise OtherException,
     [RunFlow "credentials.json" ["https://www.googleapis.com/auth/gmail.modify"];
      OpenForWrite "token.json"]).
Proof. reflexivity. Qed.


(** X15: the sign-in flow is started exactly when there is no token file,
    or the stored credentials are invalid, expired and refreshable and the
    refresh raised an exception under [Exception]. In particular stored
    credentials that are invalid but cannot be refreshed do not start it. *)
Theorem flow_runs_iff (env : AuthEnv) :
  In (RunFlow CREDENTIALS_FILE SCOPES) (snd (get_credentials env)) <->
  token_file env = None \/
  exists c e, token_file env = Some (Ok c) /\ valid c = false /\
              expired c && has_refresh_token c = true /\
              refresh env c = Raise e /\ is_Exception e = true.
Proof.
  auth_cases env.
  all: split;
    [ intros H; repeat destruct H as [H | H];
      try discriminate H; try contradiction;
      first [ now left
            | right; eexists _, _; repeat split; eassumption ]
    | intros [H | (c0 & e & H & Hv & Hx & Hr & He)];
      try discriminate H;
      try (injection H as <-; congruence);
      cbn; repeat (first [left; reflexivity | right]) ].
Qed.

(** X16: stored credentials that are not valid and cannot be refreshed
    (not expired, or without a refresh token) are written back and returned
    as they are, still not valid, without any sign-in. *)
Theorem unrefreshable_credentials_are_returned (env : AuthEnv)
    (c : Credentials) :
  token_file env = Some (Ok c) ->
  valid c = false ->
  expired c && has_refresh_token c = false ->
  write_fault env = None ->
  get_credentials env =
  (Ok (Some c),
   [LoadToken TOKEN_FILE SCOPES; OpenForWrite TOKEN_FILE;
    WriteToken (to_json c)]).
Proof.
  intros Hfile Hvalid Hrefresh Hwrite.
  unfold get_credentials, load_token, refresh_step, flow_step, write_step,
    auth_bind.
  rewrite Hfile. cbn. rewrite Hvalid. cbn. rewrite Hrefresh, Hwrite.
  reflexivity.
Qed.

Lemma unrefreshable_credentials_are_returned_witness :
  let c := mkCredentials false true None "{}" in
  get_credentials
    (mkAuthEnv (Some (Ok c)) (fun x => Ok x)
               (Ok (Some (mkCredentials true false (Some "r") "{new}"))) None)
  = (Ok (Some c),
     [LoadToken TOKEN_FILE SCOPES; OpenForWrite TOKEN_FILE; WriteToken "{}"]).
Proof.
  apply (unrefreshable_credentials_are_returned
           (mkAuthEnv (Some (Ok (mkCredentials false true None "{}")))
                      (fun x => Ok x)
                      (Ok (Some (mkCredentials true false (Some "r") "{new}")))
                      None)
           (mkCredentials false true None "{}"));
    reflexivity.
Defined.

(** ** One inference per message *)

(** X17: for a fetched message whose sender is not trusted the model is
    run exactly once, on the one text made of the message's subject, sender
    and snippet as fetched (the defaults standing for a missing header),
    whether the model answers or raises. *)
Theorem untrusted_message_is_classified_once (lower : string -> string)
    (classifier : SpamClassifier) (processed_label_id id : string)
    (w : World) (email : Email) :
  next_fault w = None ->
  find (has_id id) (gm_messages (gmail w)) = Some email ->
  is_trusted lower (sender_of email) = false ->
  model_runs (out_events
                (process_message lower classifier processed_label_id id w))
  = [[text_to_classify (subject_of email) (sender_of email)
                       (email_snippet email)]].
Proof.
  intros Hfault Hfind Htrust.
  rewrite (process_message_untrusted _ _ _ _ _ _ Hfault Hfind Htrust).
  cbn zeta.
  set (w1 := mkWorld (gmail w) (advance w)).
  set (text := text_to_classify _ _ _).
  destruct (get_spam_probability_shows classifier text w1)
    as (_ & _ & Hc & _). cbn zeta in Hc.
  destruct (out_res (get_spam_probability classifier text w1)) as [p|e].
  - destruct (SPAM_CONFIDENCE_THRESHOLD <? p)%float; cbn [out_events].
    + destruct (modify_message_labels_shows (email_id email) ["SPAM"] ["INBOX"]
                  w1) as (_ & _ & Hr & _). cbn zeta in Hr.
      change (model_runs (?a :: ?l ++ ?b :: ?l'))
        with (model_runs ([a] ++ l ++ [b] ++ l')).
      now rewrite !model_runs_app, Hc, Hr.
    + destruct (modify_message_labels_shows (email_id email)
                  [processed_label_id] [] w1) as (_ & _ & Hr & _).
      cbn zeta in Hr.
      change (model_runs (?a :: ?l ++ ?b :: ?l'))
        with (model_runs ([a] ++ l ++ [b] ++ l')).
      now rewrite !model_runs_app, Hc, Hr.
  - cbn [out_events].
    change (model_runs (?a :: ?l)) with (model_runs ([a] ++ l)).
    now rewrite model_runs_app, Hc.
Qed.

Lemma untrusted_message_is_classified_once_witness :
  model_runs (out_events
                (process_message Scenario.ascii_lower Scenario.broken
                   "Label_7" "m9"
                   (mkWorld (mkGmail [Scenario.processed]
                               [mkEmail "m9" [("from", "x@github.com")]
                                        "hello" ["UNREAD"]]) [])))
  = [["Subject: [No Subject] From: [No Sender] Body: hello"]].
Proof.
  apply (untrusted_message_is_classified_once Scenario.ascii_lower
           Scenario.broken "Label_7" "m9"
           (mkWorld (mkGmail [Scenario.processed]
                       [mkEmail "m9" [("from", "x@github.com")]
                                "hello" ["UNREAD"]]) [])
           (mkEmail "m9" [("from", "x@github.com")] "hello" ["UNREAD"]));
    vm_compute; reflexivity.
Defined.
